(** * FastaFlow: the validate / clean / aggregate core of [main.py]

    A shallow embedding of [validate_sequence], [clean_sequence],
    [calculate_statistics] and of the validate-and-clean loop of
    [process_fasta], followed by the properties of the pipeline.

    Python values are modelled as follows.
    - A [str] is the list of its Unicode code points; a code point is an [N].
    - [int] is [Z]; [len] returns a [Z].
    - [float] is Rocq's primitive binary64 [float]; [int / int] is the
      division of the two operands converted to binary64, which is what
      Python computes as long as both are below [2^53].
    - An exception is a value of [exn] returned through [result].
    - A [SeqRecord] is the pair of its [id] and its [seq]; the loop of
      [process_fasta] overwrites [record.seq] in place and reads the record
      again only from the list it appended it to, so the overwritten record
      is a new value.
    - [str.upper] works code point by code point and may return several
      code points for one; the table is the interpreter's, so the
      development takes it as the variable [upper_char] and only relies,
      where stated, on its values on ASCII. *)

From Stdlib Require Import ZArith NArith List String Ascii Bool Lia.
From Stdlib Require Import Permutation Floats Uint63.
Import ListNotations.

Local Open Scope Z_scope.

(** ** Python strings *)

Definition char := N.
Definition str := list char.

(** The code points of an ASCII literal. *)
Definition pystr (s : string) : str := map N_of_ascii (list_ascii_of_string s).

Definition len {A : Type} (l : list A) : Z := Z.of_nat (List.length l).

(** [a < b], [a > b] on [str]: lexicographic on code points. *)
Definition str_compare : str -> str -> comparison := list_compare N.compare.
Definition str_ltb (a b : str) : bool :=
  match str_compare a b with Lt => true | _ => false end.
Definition str_gtb (a b : str) : bool :=
  match str_compare a b with Gt => true | _ => false end.
Definition str_le (a b : str) : Prop := str_compare a b <> Gt.

(** [str.upper] on ASCII: [a]..[z] go to [A]..[Z], the rest is unchanged. *)
Definition ascii_upper_char (c : char) : str :=
  if ((97 <=? c) && (c <=? 122))%N then [(c - 32)%N] else [c].

(** ** Exceptions *)

Inductive exn : Set := ValueError | ZeroDivisionError.

Inductive result (A : Type) : Type :=
| Ok (a : A)
| Raise (e : exn).
Arguments Ok {A} a.
Arguments Raise {A} e.

Definition bind {A B : Type} (m : result A) (k : A -> result B) : result B :=
  match m with
  | Ok a => k a
  | Raise e => Raise e
  end.

Notation "x <- m ;; k" := (bind m (fun x => k))
  (at level 61, m at next level, right associativity).

(** ** Python numbers *)

Inductive number : Set :=
| PyInt (z : Z)
| PyFloat (f : float).

(** The binary64 value of an [int]; exact for [0 <= z < 2^53], which
    covers every length and every sum of lengths of sequences held in
    memory. *)
Definition float_of_int (z : Z) : float := PrimFloat.of_uint63 (Uint63.of_Z z).

(** [a / b] on two [int]s in that range: the correctly rounded quotient,
    or [ZeroDivisionError]. *)
Definition truediv (a b : Z) : result float :=
  if b =? 0 then Raise ZeroDivisionError
  else Ok (PrimFloat.div (float_of_int a) (float_of_int b)).





(** ** Binary64 rounding *)






(** ** Records and tuples *)

Record SeqRecord : Type := mkRecord { id : str; seq : str }.

Definition set_seq (record : SeqRecord) (s : str) : SeqRecord :=
  {| id := id record; seq := s |}.

(** The pairs [(len(r.seq), r.id)] and their comparison, first on the
    length and, when the lengths are equal, on the identifier. *)
Definition len_id := (Z * str)%type.

Definition tuple_ltb (x y : len_id) : bool :=
  if fst x =? fst y then str_ltb (snd x) (snd y) else fst x <? fst y.

Definition tuple_gtb (x y : len_id) : bool :=
  if fst x =? fst y then str_gtb (snd x) (snd y) else fst x >? fst y.

(** [min(it)] and [max(it)]: the first item is the candidate, a later item
    replaces it when it is strictly smaller (strictly greater); an empty
    iterable raises [ValueError]. *)
Definition py_min (items : list len_id) : result len_id :=
  match items with
  | [] => Raise ValueError
  | first :: rest =>
      Ok (fold_left (fun m item => if tuple_ltb item m then item else m)
                    rest first)
  end.

Definition py_max (items : list len_id) : result len_id :=
  match items with
  | [] => Raise ValueError
  | first :: rest =>
      Ok (fold_left (fun m item => if tuple_gtb item m then item else m)
                    rest first)
  end.

Definition py_sum (xs : list Z) : Z := fold_left Z.add xs 0.

(** Truth value of a list: [if records]. *)
Definition truthy {A : Type} (l : list A) : bool :=
  match l with [] => false | _ :: _ => true end.

(** ** The pipeline *)

(** [valid_bases = set("ATGC")]. *)
Definition valid_bases : list char := pystr "ATGC".

Definition in_valid_bases (base : char) : bool :=
  existsb (N.eqb base) valid_bases.

(** The dictionary returned by [calculate_statistics]. *)
Record stats : Type := mkStats {
  total_sequences : Z;
  total_bases : Z;
  avg_length : number;
  shortest : len_id;
  longest : len_id
}.

Definition lengths (records : list SeqRecord) : list Z :=
  map (fun r => len (seq r)) records.

Definition length_id_pairs (records : list SeqRecord) : list len_id :=
  map (fun r => (len (seq r), id r)) records.

Definition calculate_statistics (records : list SeqRecord) : result stats :=
  let n := len records in
  let bases := py_sum (lengths records) in
  avg <- (if truthy records
          then f <- truediv (py_sum (lengths records)) (len records) ;;
               Ok (PyFloat f)
          else Ok (PyInt 0)) ;;
  lo <- (if truthy records
         then py_min (length_id_pairs records) else Ok (0, [])) ;;
  hi <- (if truthy records
         then py_max (length_id_pairs records) else Ok (0, [])) ;;
  Ok {| total_sequences := n;
        total_bases := bases;
        avg_length := avg;
        shortest := lo;
        longest := hi |}.

(** The state of the loop of [process_fasta]. *)
Record loop_state : Type := mkLoop {
  valid_records : list SeqRecord;
  invalid_count : Z
}.

Section Pipeline.

(** [str.upper] on one code point. *)
Variable upper_char : char -> str.

Definition upper (s : str) : str := flat_map upper_char s.

(** The [for base in sequence_upper] loop of [validate_sequence]. *)
Fixpoint all_valid (sequence_upper : str) : bool :=
  match sequence_upper with
  | [] => true
  | base :: rest => if negb (in_valid_bases base) then false else all_valid rest
  end.

Definition validate_sequence (sequence : str) : bool :=
  all_valid (upper sequence).

Definition clean_sequence (sequence : str) : str :=
  filter in_valid_bases (upper sequence).

(** One iteration of [for record in records]. The record whose sequence is
    overwritten is read again only through [valid_records], so the
    assignment [record.seq = ...] is the new record [set_seq record ...]. *)
Definition process_record (st : loop_state) (record : SeqRecord) : loop_state :=
  if validate_sequence (seq record) then
    {| valid_records := valid_records st ++ [record];
       invalid_count := invalid_count st |}
  else
    let invalid_count' := invalid_count st + 1 in
    let record' := set_seq record (clean_sequence (seq record)) in
    if len (seq record') >? 0 then
      {| valid_records := valid_records st ++ [record'];
         invalid_count := invalid_count' |}
    else
      {| valid_records := valid_records st;
         invalid_count := invalid_count' |}.

Definition process_records (records : list SeqRecord) : loop_state :=
  fold_left process_record records {| valid_records := []; invalid_count := 0 |}.

(** The two counts [process_fasta] prints after the loop, as valid
    sequences and as sequences with invalid characters. *)
Definition reported_valid (st : loop_state) : Z := len (valid_records st).
Definition reported_invalid (st : loop_state) : Z := invalid_count st.

(** [process_fasta] after the FASTA file has been looked up and parsed:
    [None] when the file does not exist. *)
Definition process_fasta (parsed : option (list SeqRecord)) : list SeqRecord :=
  match parsed with
  | None => []
  | Some records => valid_records (process_records records)
  end.

End Pipeline.

(** ** Orders used to state the statistics *)

(** The three-way comparison of two pairs, of which [tuple_ltb] and
    [tuple_gtb] are the two strict tests. *)
Definition tuple_compare (x y : len_id) : comparison :=
  match fst x ?= fst y with
  | Eq => str_compare (snd x) (snd y)
  | c => c
  end.

Definition tuple_le (x y : len_id) : Prop := tuple_compare x y <> Gt.

(** The scan shared by [min] and [max]: keep the candidate unless the next
    item is strictly before it for [cmp]. *)
Definition extremum {A : Type} (cmp : A -> A -> comparison)
    (first : A) (rest : list A) : A :=
  fold_left (fun m item => match cmp item m with Lt => item | _ => m end)
            rest first.

(** ** The record processor as the specification words it *)

Section Specification.

Variable upper_char : char -> str.

(** What one input record contributes to the accepted records: itself when
    valid, its cleaned version when invalid and not emptied by cleaning,
    nothing otherwise. *)
Definition accepted_of (record : SeqRecord) : list SeqRecord :=
  if validate_sequence upper_char (seq record) then [record]
  else match clean_sequence upper_char (seq record) with
       | [] => []
       | cleaned => [set_seq record cleaned]
       end.

Definition valid_on_first_pass (records : list SeqRecord) : list SeqRecord :=
  filter (fun r => validate_sequence upper_char (seq r)) records.

Definition invalid_on_first_pass (records : list SeqRecord) : list SeqRecord :=
  filter (fun r => negb (validate_sequence upper_char (seq r))) records.

(** The invalid records that cleaning does not empty. *)
Definition cleaned_and_kept (records : list SeqRecord) : list SeqRecord :=
  filter (fun r => truthy (clean_sequence upper_char (seq r)))
         (invalid_on_first_pass records).

End Specification.

(** * Properties *)

(** ** The alphabet *)

Definition is_base (c : char) : Prop := In c valid_bases.

Lemma in_valid_bases_iff (c : char) : in_valid_bases c = true <-> is_base c.
Proof.
  unfold in_valid_bases, is_base. rewrite existsb_exists. split.
  - intros [x [Hin Heq]]. apply N.eqb_eq in Heq. now subst.
  - intros Hin. exists c. split; [assumption | apply N.eqb_refl].
Qed.

Lemma is_base_ascii (c : char) : is_base c -> (c < 128)%N.
Proof.
  unfold is_base, valid_bases. cbn. intros H.
  repeat (destruct H as [<- | H]; [reflexivity |]). destruct H.
Qed.

Lemma ascii_upper_base (c : char) : is_base c -> ascii_upper_char c = [c].
Proof.
  unfold is_base, valid_bases. cbn. intros H.
  repeat (destruct H as [<- | H]; [reflexivity |]). destruct H.
Qed.

Lemma all_valid_forallb (s : str) : all_valid s = forallb in_valid_bases s.
Proof.
  induction s as [| base rest IH]; cbn [all_valid forallb]; [reflexivity |].
  rewrite IH. now destruct (in_valid_bases base).
Qed.

Lemma all_valid_iff (s : str) : all_valid s = true <-> Forall is_base s.
Proof.
  rewrite all_valid_forallb, forallb_forall, Forall_forall.
  split; intros H c Hc; apply in_valid_bases_iff; auto.
Qed.

Lemma filter_all_valid (s : str) : all_valid (filter in_valid_bases s) = true.
Proof.
  apply all_valid_iff, Forall_forall. intros c Hc.
  apply filter_In in Hc. now apply in_valid_bases_iff.
Qed.

Lemma filter_valid_id (s : str) :
  all_valid s = true -> filter in_valid_bases s = s.
Proof.
  rewrite all_valid_forallb.
  induction s as [| base rest IH]; cbn [forallb filter]; [reflexivity |].
  intros H. apply andb_true_iff in H as [Hb Hr]. rewrite Hb, IH; auto.
Qed.

(** ** Extrema of a total order *)

Section Extremum.

Variable A : Type.
Variable cmp : A -> A -> comparison.

Hypothesis cmp_eq : forall x y, cmp x y = Eq <-> x = y.
Hypothesis cmp_antisym : forall x y, cmp y x = CompOpp (cmp x y).
Hypothesis cmp_trans :
  forall x y z, cmp x y = Lt -> cmp y z = Lt -> cmp x z = Lt.

Lemma cmp_le_trans (x y z : A) :
  cmp x y <> Gt -> cmp y z <> Gt -> cmp x z <> Gt.
Proof.
  intros Hxy Hyz.
  destruct (cmp x y) eqn:Exy; [| | congruence].
  - apply cmp_eq in Exy. now subst.
  - destruct (cmp y z) eqn:Eyz; [| | congruence].
    + apply cmp_eq in Eyz. subst. congruence.
    + rewrite (cmp_trans _ _ _ Exy Eyz). discriminate.
Qed.

Lemma cmp_le_antisym (x y : A) : cmp x y <> Gt -> cmp y x <> Gt -> x = y.
Proof.
  intros Hxy Hyx. rewrite cmp_antisym in Hyx. apply cmp_eq.
  destruct (cmp x y); [reflexivity | now cbn in Hyx | congruence].
Qed.

Lemma extremum_cons (first item : A) (rest : list A) :
  extremum cmp first (item :: rest) =
  extremum cmp (match cmp item first with Lt => item | _ => first end) rest.
Proof. reflexivity. Qed.

Lemma extremum_spec (rest : list A) (first : A) :
  In (extremum cmp first rest) (first :: rest) /\
  forall y, In y (first :: rest) -> cmp (extremum cmp first rest) y <> Gt.
Proof.
  revert first. induction rest as [| item rest IH]; intros first.
  - cbn. split; [now left |]. intros y [<- | []].
    now rewrite (proj2 (cmp_eq first first) eq_refl).
  - rewrite extremum_cons.
    destruct (cmp item first) eqn:E;
      match goal with
      | |- context [extremum cmp ?c rest] =>
          destruct (IH c) as [Hin Hle]; set (m := extremum cmp c rest) in *
      end.
    + split; [destruct Hin as [<- | Hin]; cbn; auto |].
      intros y [<- | [<- | Hy]].
      * apply Hle. now left.
      * apply cmp_eq in E. subst. apply Hle. now left.
      * apply Hle. now right.
    + split; [right; exact Hin |].
      intros y [<- | Hy]; [| now apply Hle].
      apply cmp_le_trans with item; [apply Hle; now left | congruence].
    + split; [destruct Hin as [<- | Hin]; cbn; auto |].
      intros y [<- | [<- | Hy]].
      * apply Hle. now left.
      * apply cmp_le_trans with first; [apply Hle; now left |].
        rewrite cmp_antisym, E. discriminate.
      * apply Hle. now right.
Qed.

Lemma extremum_permutation (x y : A) (xs ys : list A) :
  Permutation (x :: xs) (y :: ys) -> extremum cmp x xs = extremum cmp y ys.
Proof.
  intros HP.
  destruct (extremum_spec xs x) as [Hin1 Hle1].
  destruct (extremum_spec ys y) as [Hin2 Hle2].
  apply cmp_le_antisym.
  - apply Hle1. apply Permutation_in with (y :: ys); [now symmetry | exact Hin2].
  - apply Hle2. apply Permutation_in with (x :: xs); assumption.
Qed.

End Extremum.

(** ** The order on [(length, identifier)] pairs *)

Lemma N_compare_trans (x y z : N) (c : comparison) :
  (x ?= y)%N = c -> (y ?= z)%N = c -> (x ?= z)%N = c.
Proof.
  destruct c; intros H1 H2.
  - apply N.compare_eq_iff in H1, H2. subst. apply N.compare_refl.
  - rewrite N.compare_lt_iff in *. lia.
  - rewrite N.compare_gt_iff in *. lia.
Qed.

Lemma str_compare_eq (a b : str) : str_compare a b = Eq <-> a = b.
Proof. apply list_compare_refl, N.compare_eq_iff. Qed.

Lemma str_compare_antisym (a b : str) :
  str_compare b a = CompOpp (str_compare a b).
Proof.
  apply list_compare_antisym; [apply N.compare_eq_iff |].
  intros x y. apply N.compare_antisym.
Qed.

Lemma str_compare_trans (a b c : str) :
  str_compare a b = Lt -> str_compare b c = Lt -> str_compare a c = Lt.
Proof.
  apply list_compare_trans;
    [apply N.compare_eq_iff | apply N_compare_trans |].
  intros x y. apply N.compare_antisym.
Qed.

Lemma tuple_compare_eq (x y : len_id) : tuple_compare x y = Eq <-> x = y.
Proof.
  destruct x as [l1 i1], y as [l2 i2]. unfold tuple_compare. cbn [fst snd].
  destruct (Z.compare_spec l1 l2) as [-> | H | H].
  - rewrite str_compare_eq. split; [now intros -> | congruence].
  - split; [discriminate | intros [= -> _]; lia].
  - split; [discriminate | intros [= -> _]; lia].
Qed.

Lemma tuple_compare_antisym (x y : len_id) :
  tuple_compare y x = CompOpp (tuple_compare x y).
Proof.
  unfold tuple_compare. rewrite (Z.compare_antisym (fst x) (fst y)).
  destruct (fst x ?= fst y); cbn [CompOpp]; auto using str_compare_antisym.
Qed.

Lemma tuple_compare_trans (x y z : len_id) :
  tuple_compare x y = Lt -> tuple_compare y z = Lt -> tuple_compare x z = Lt.
Proof.
  unfold tuple_compare.
  destruct (Z.compare_spec (fst x) (fst y)) as [E1 | L1 | G1]; try discriminate;
    destruct (Z.compare_spec (fst y) (fst z)) as [E2 | L2 | G2]; try discriminate;
    intros H1 H2.
  - rewrite E1, E2, Z.compare_refl. eapply str_compare_trans; eassumption.
  - rewrite (proj2 (Z.compare_lt_iff _ _)) by lia. reflexivity.
  - rewrite (proj2 (Z.compare_lt_iff _ _)) by lia. reflexivity.
  - rewrite (proj2 (Z.compare_lt_iff _ _)) by lia. reflexivity.
Qed.

Lemma tuple_ltb_compare (x y : len_id) :
  tuple_ltb x y = match tuple_compare x y with Lt => true | _ => false end.
Proof.
  unfold tuple_ltb, tuple_compare, str_ltb.
  destruct (Z.compare_spec (fst x) (fst y)) as [E | L | G].
  - now rewrite (proj2 (Z.eqb_eq _ _) E).
  - rewrite (proj2 (Z.eqb_neq _ _)) by lia. apply Z.ltb_lt, L.
  - rewrite (proj2 (Z.eqb_neq _ _)) by lia. apply Z.ltb_ge. lia.
Qed.

Lemma tuple_gtb_compare (x y : len_id) :
  tuple_gtb x y = match tuple_compare y x with Lt => true | _ => false end.
Proof.
  rewrite tuple_compare_antisym.
  unfold tuple_gtb, tuple_compare, str_gtb.
  destruct (Z.compare_spec (fst x) (fst y)) as [E | L | G]; cbn [CompOpp].
  - rewrite (proj2 (Z.eqb_eq _ _) E).
    now destruct (str_compare (snd x) (snd y)).
  - rewrite (proj2 (Z.eqb_neq _ _)) by lia. rewrite Z.gtb_ltb. apply Z.ltb_ge. lia.
  - rewrite (proj2 (Z.eqb_neq _ _)) by lia. rewrite Z.gtb_ltb. apply Z.ltb_lt, G.
Qed.

Lemma py_min_extremum (first : len_id) (rest : list len_id) :
  py_min (first :: rest) = Ok (extremum tuple_compare first rest).
Proof.
  unfold py_min, extremum. f_equal. revert first.
  induction rest as [| item rest IH]; intros first; [reflexivity |].
  cbn [fold_left]. rewrite IH, tuple_ltb_compare.
  now destruct (tuple_compare item first).
Qed.

Lemma py_max_extremum (first : len_id) (rest : list len_id) :
  py_max (first :: rest) =
  Ok (extremum (fun x y => tuple_compare y x) first rest).
Proof.
  unfold py_max, extremum. f_equal. revert first.
  induction rest as [| item rest IH]; intros first; [reflexivity |].
  cbn [fold_left]. rewrite IH, tuple_gtb_compare.
  now destruct (tuple_compare first item).
Qed.

Lemma tuple_le_iff (x y : len_id) :
  tuple_le x y <->
  fst x < fst y \/ (fst x = fst y /\ str_le (snd x) (snd y)).
Proof.
  unfold tuple_le, tuple_compare, str_le.
  destruct (Z.compare_spec (fst x) (fst y)) as [E | L | G].
  - split; [intros H; right; now split | intros [H | [_ H]]; [lia | exact H]].
  - split; [intros _; now left | discriminate].
  - split; [congruence | intros [H | [H _]]; lia].
Qed.

(** ** [calculate_statistics] *)

Lemma fold_add_acc (xs : list Z) (a : Z) :
  fold_left Z.add xs a = a + py_sum xs.
Proof.
  unfold py_sum. revert a. induction xs as [| x xs IH]; intros a; cbn.
  - lia.
  - rewrite (IH (a + x)), (IH x). lia.
Qed.

Lemma py_sum_cons (x : Z) (xs : list Z) : py_sum (x :: xs) = x + py_sum xs.
Proof. unfold py_sum at 1. cbn [fold_left]. now rewrite fold_add_acc. Qed.

Lemma py_sum_permutation (xs ys : list Z) :
  Permutation xs ys -> py_sum xs = py_sum ys.
Proof.
  induction 1 as [| x xs ys _ IH | x y xs | xs ys zs _ IH1 _ IH2].
  - reflexivity.
  - rewrite !py_sum_cons. lia.
  - rewrite !py_sum_cons. lia.
  - congruence.
Qed.


Lemma calculate_statistics_cons (r : SeqRecord) (rs : list SeqRecord) :
  calculate_statistics (r :: rs) =
  Ok {| total_sequences := len (r :: rs);
        total_bases := py_sum (lengths (r :: rs));
        avg_length :=
          PyFloat (PrimFloat.div (float_of_int (py_sum (lengths (r :: rs))))
                                 (float_of_int (len (r :: rs))));
        shortest :=
          extremum tuple_compare (len (seq r), id r) (length_id_pairs rs);
        longest :=
          extremum (fun x y => tuple_compare y x)
                   (len (seq r), id r) (length_id_pairs rs) |}.
Proof.
  unfold calculate_statistics, truediv. cbn [truthy length_id_pairs map].
  rewrite py_min_extremum, py_max_extremum.
  replace (len (r :: rs) =? 0) with false; [reflexivity |].
  symmetry. apply Z.eqb_neq. unfold len. cbn [List.length]. lia.
Qed.

Lemma flip_compare_eq (x y : len_id) : tuple_compare y x = Eq <-> x = y.
Proof. rewrite tuple_compare_eq. split; congruence. Qed.

Lemma flip_compare_antisym (x y : len_id) :
  tuple_compare x y = CompOpp (tuple_compare y x).
Proof. apply tuple_compare_antisym. Qed.

Lemma flip_compare_trans (x y z : len_id) :
  tuple_compare y x = Lt -> tuple_compare z y = Lt -> tuple_compare z x = Lt.
Proof. intros H1 H2. eapply tuple_compare_trans; eassumption. Qed.

(** The reported pairs are a least and a greatest element of the pairs of
    the collection. *)
Lemma shortest_least (r : SeqRecord) (rs : list SeqRecord) :
  let lo := extremum tuple_compare (len (seq r), id r) (length_id_pairs rs) in
  In lo (length_id_pairs (r :: rs)) /\
  forall r', In r' (r :: rs) -> tuple_le lo (len (seq r'), id r').
Proof.
  destruct (extremum_spec _ tuple_compare tuple_compare_eq tuple_compare_antisym
              tuple_compare_trans (length_id_pairs rs) (len (seq r), id r))
    as [Hin Hle].
  split; [exact Hin |]. intros r' Hr'. apply Hle.
  change (In ((fun r => (len (seq r), id r)) r') (length_id_pairs (r :: rs))).
  now apply in_map.
Qed.

Lemma longest_greatest (r : SeqRecord) (rs : list SeqRecord) :
  let hi := extremum (fun x y => tuple_compare y x)
                     (len (seq r), id r) (length_id_pairs rs) in
  In hi (length_id_pairs (r :: rs)) /\
  forall r', In r' (r :: rs) -> tuple_le (len (seq r'), id r') hi.
Proof.
  destruct (extremum_spec _ (fun x y => tuple_compare y x)
              flip_compare_eq flip_compare_antisym
              flip_compare_trans (length_id_pairs rs) (len (seq r), id r))
    as [Hin Hle].
  split; [exact Hin |]. intros r' Hr'. apply Hle.
  change (In ((fun r => (len (seq r), id r)) r') (length_id_pairs (r :: rs))).
  now apply in_map.
Qed.

(** C6: [calculate_statistics] on the empty collection raises nothing and
    returns total_sequences 0, total_bases 0, avg_length 0 and the pair
    (0, empty identifier) for both shortest and longest. *)
Theorem calculate_statistics_empty :
  calculate_statistics [] =
  Ok {| total_sequences := 0; total_bases := 0; avg_length := PyInt 0;
        shortest := (0, pystr ""); longest := (0, pystr "") |}.
Proof.
  unfold calculate_statistics. cbn [truthy bind]. reflexivity.
Qed.

(** C5: on a non-empty collection the summary is returned; the pair
    reported as shortest has the least length and, among the records of
    that length, the lexicographically smallest identifier; the pair
    reported as longest has the greatest length and, among the records of
    that length, the lexicographically largest identifier. *)
Theorem shortest_longest_tie_break (records : list SeqRecord) :
  records <> [] ->
  exists st, calculate_statistics records = Ok st /\
    In (shortest st) (length_id_pairs records) /\
    In (longest st) (length_id_pairs records) /\
    forall r, In r records ->
      (fst (shortest st) < len (seq r) \/
       (fst (shortest st) = len (seq r) /\ str_le (snd (shortest st)) (id r))) /\
      (len (seq r) < fst (longest st) \/
       (len (seq r) = fst (longest st) /\ str_le (id r) (snd (longest st)))).
Proof.
  destruct records as [| r rs]; [congruence | intros _].
  eexists. split; [apply calculate_statistics_cons |]. cbn [shortest longest].
  destruct (shortest_least r rs) as [Hin1 Hle1].
  destruct (longest_greatest r rs) as [Hin2 Hle2].
  split; [exact Hin1 | split; [exact Hin2 |]].
  intros r' Hr'. split.
  - apply (tuple_le_iff _ (len (seq r'), id r')), Hle1, Hr'.
  - apply (tuple_le_iff (len (seq r'), id r') _), Hle2, Hr'.
Qed.

(** C2, as the code has it: the summary, and with it the records reported
    as shortest and as longest, is the same for every order of the
    collection; the position of a record among those of equal length
    plays no part. *)
Theorem calculate_statistics_permutation (records records' : list SeqRecord) :
  Permutation records records' ->
  calculate_statistics records = calculate_statistics records'.
Proof.
  intros HP. destruct records as [| r rs], records' as [| r' rs'].
  - reflexivity.
  - now apply Permutation_nil in HP.
  - symmetry in HP. now apply Permutation_nil in HP.
  - rewrite !calculate_statistics_cons.
    assert (HL : len (r :: rs) = len (r' :: rs'))
      by (unfold len; now rewrite (Permutation_length HP)).
    assert (HS : py_sum (lengths (r :: rs)) = py_sum (lengths (r' :: rs')))
      by (apply py_sum_permutation, Permutation_map, HP).
    assert (HM : Permutation (length_id_pairs (r :: rs))
                             (length_id_pairs (r' :: rs')))
      by (apply Permutation_map, HP).
    cbn [length_id_pairs map] in HM. fold (length_id_pairs rs) in HM.
    fold (length_id_pairs rs') in HM.
    rewrite HL, HS.
    rewrite (extremum_permutation _ tuple_compare tuple_compare_eq tuple_compare_antisym
               tuple_compare_trans _ _ _ _ HM).
    rewrite (extremum_permutation _ (fun x y => tuple_compare y x)
               flip_compare_eq flip_compare_antisym flip_compare_trans
               _ _ _ _ HM).
    reflexivity.
Qed.

(** ** Binary64 division of two integers below [2^53] *)







































(** ** The mean length *)





Section Properties.

Variable upper_char : char -> str.

(** On ASCII, [str.upper] is the ASCII upper-casing. *)
Hypothesis upper_ascii :
  forall c : char, (c < 128)%N -> upper_char c = ascii_upper_char c.

Lemma upper_forall (s : str) (P : char -> Prop) :
  Forall P (upper upper_char s) <-> Forall (fun c => Forall P (upper_char c)) s.
Proof.
  unfold upper. induction s as [| c s IH]; cbn.
  - split; constructor.
  - rewrite Forall_app, IH. split.
    + intros [H1 H2]. now constructor.
    + intros H. inversion H; subst. now split.
Qed.

Lemma upper_bases (s : str) : Forall is_base s -> upper upper_char s = s.
Proof.
  unfold upper. induction 1 as [| c s Hc Hs IH]; cbn; [reflexivity |].
  rewrite IH, upper_ascii by now apply is_base_ascii.
  now rewrite ascii_upper_base.
Qed.

Lemma clean_sequence_bases (s : str) :
  Forall is_base (clean_sequence upper_char s).
Proof. apply all_valid_iff, filter_all_valid. Qed.

Lemma validate_sequence_iff (S : str) :
  validate_sequence upper_char S = true <->
  Forall (fun c => Forall is_base (upper_char c)) S.
Proof.
  unfold validate_sequence. now rewrite all_valid_iff, upper_forall.
Qed.

(** C7: [validate_sequence] returns true exactly when every character of
    the sequence, once uppercased, is one of A, T, G, C; the empty sequence
    is valid and so is the lower-case sequence atgc. *)
Theorem validate_sequence_spec :
  (forall S : str,
      validate_sequence upper_char S = true <->
      Forall (fun c => Forall is_base (upper_char c)) S) /\
  validate_sequence upper_char (pystr "") = true /\
  validate_sequence upper_char (pystr "atgc") = true.
Proof.
  split; [exact validate_sequence_iff | split; [reflexivity |]].
  apply validate_sequence_iff. unfold pystr. cbn.
  repeat constructor; rewrite upper_ascii by reflexivity; cbn;
    repeat constructor; unfold is_base, valid_bases; cbn; tauto.
Qed.

(** C8: cleaning twice is cleaning once, a cleaned sequence is valid, and
    the empty sequence is cleaned to the empty sequence. *)
Theorem clean_sequence_idempotent_valid :
  (forall S : str,
      clean_sequence upper_char (clean_sequence upper_char S) =
      clean_sequence upper_char S /\
      validate_sequence upper_char (clean_sequence upper_char S) = true) /\
  clean_sequence upper_char (pystr "") = pystr "".
Proof.
  split; [| reflexivity]. intros S.
  pose proof (clean_sequence_bases S) as Hb.
  unfold validate_sequence.
  unfold clean_sequence at 1.
  rewrite (upper_bases _ Hb). split.
  - apply filter_valid_id, all_valid_iff, Hb.
  - apply all_valid_iff, Hb.
Qed.

(** ** The loop of [process_fasta] *)

Lemma len_app {A : Type} (l1 l2 : list A) : len (l1 ++ l2) = len l1 + len l2.
Proof. unfold len. rewrite length_app. lia. Qed.

Lemma len_nonneg {A : Type} (l : list A) : 0 <= len l.
Proof. unfold len. lia. Qed.

Lemma process_record_accepted (st : loop_state) (record : SeqRecord) :
  process_record upper_char st record =
  {| valid_records := valid_records st ++ accepted_of upper_char record;
     invalid_count :=
       invalid_count st + len (invalid_on_first_pass upper_char [record]) |}.
Proof.
  unfold process_record, accepted_of, invalid_on_first_pass. cbn [filter].
  destruct (validate_sequence upper_char (seq record)); cbn [negb].
  - destruct st; cbn. now rewrite Z.add_0_r.
  - cbn [set_seq seq].
    destruct (clean_sequence upper_char (seq record)) as [| c cleaned];
      cbn [valid_records invalid_count].
    + now rewrite app_nil_r.
    + reflexivity.
Qed.

Lemma fold_process_record (records : list SeqRecord) (st : loop_state) :
  fold_left (process_record upper_char) records st =
  {| valid_records := valid_records st ++ flat_map (accepted_of upper_char) records;
     invalid_count :=
       invalid_count st + len (invalid_on_first_pass upper_char records) |}.
Proof.
  revert st. induction records as [| record records IH]; intros st.
  - destruct st; cbn. now rewrite app_nil_r, Z.add_0_r.
  - cbn [fold_left]. rewrite IH, process_record_accepted.
    cbn [valid_records invalid_count flat_map].
    rewrite <- app_assoc, <- Z.add_assoc. f_equal. f_equal.
    unfold invalid_on_first_pass. cbn [filter].
    destruct (negb (validate_sequence upper_char (seq record)));
      unfold len; cbn [List.length]; lia.
Qed.

Lemma process_records_accepted (records : list SeqRecord) :
  process_records upper_char records =
  {| valid_records := flat_map (accepted_of upper_char) records;
     invalid_count := len (invalid_on_first_pass upper_char records) |}.
Proof. unfold process_records. now rewrite fold_process_record. Qed.

(** Where an accepted record comes from. *)
Lemma in_accepted (records : list SeqRecord) (r : SeqRecord) :
  In r (valid_records (process_records upper_char records)) <->
  exists r0, In r0 records /\
    ((validate_sequence upper_char (seq r0) = true /\ r = r0) \/
     (validate_sequence upper_char (seq r0) = false /\
      clean_sequence upper_char (seq r0) <> [] /\
      r = set_seq r0 (clean_sequence upper_char (seq r0)))).
Proof.
  rewrite process_records_accepted. cbn [valid_records].
  rewrite in_flat_map. unfold accepted_of.
  split; intros [r0 [Hin H]]; exists r0; (split; [exact Hin |]).
  - destruct (validate_sequence upper_char (seq r0)).
    + left. destruct H as [<- | []]. now split.
    + right. destruct (clean_sequence upper_char (seq r0)) as [| c cleaned].
      * destruct H.
      * destruct H as [<- | []]. repeat split. discriminate.
  - destruct H as [[Hv ->] | [Hv [Hne ->]]]; rewrite Hv.
    + now left.
    + destruct (clean_sequence upper_char (seq r0)); [congruence | now left].
Qed.

Lemma length_accepted (records : list SeqRecord) :
  List.length (flat_map (accepted_of upper_char) records) =
  (List.length (valid_on_first_pass upper_char records) +
   List.length (cleaned_and_kept upper_char records))%nat.
Proof.
  unfold valid_on_first_pass, cleaned_and_kept, invalid_on_first_pass.
  induction records as [| r records IH]; [reflexivity |].
  cbn [flat_map filter]. rewrite length_app, IH. unfold accepted_of.
  destruct (validate_sequence upper_char (seq r)); cbn [negb filter].
  - cbn [List.length]. lia.
  - destruct (clean_sequence upper_char (seq r)); cbn [truthy List.length]; lia.
Qed.

Lemma length_first_pass (records : list SeqRecord) :
  (List.length (valid_on_first_pass upper_char records) +
   List.length (invalid_on_first_pass upper_char records))%nat =
  List.length records.
Proof.
  unfold valid_on_first_pass, invalid_on_first_pass.
  induction records as [| r records IH]; [reflexivity |].
  cbn [filter]. destruct (validate_sequence upper_char (seq r));
    cbn [negb List.length]; lia.
Qed.

Lemma length_cleaned_and_kept (records : list SeqRecord) :
  (List.length (cleaned_and_kept upper_char records) <=
   List.length (invalid_on_first_pass upper_char records))%nat.
Proof. unfold cleaned_and_kept. apply filter_length_le. Qed.

Lemma bases_upper_forall (s : str) :
  Forall is_base s -> Forall (fun c => Forall is_base (upper_char c)) s.
Proof.
  intros H. apply upper_forall. now rewrite upper_bases.
Qed.

(** C1, as the code has it: the sequence of every accepted record has only
    A, T, G, C once uppercased, and an accepted record is either an input
    record kept as it was read or a cleaned record, which has only
    A, T, G, C and a non-zero length. *)
Theorem accepted_records_alphabet (records : list SeqRecord) (r : SeqRecord) :
  In r (valid_records (process_records upper_char records)) ->
  Forall (fun c => Forall is_base (upper_char c)) (seq r) /\
  (In r records \/ (Forall is_base (seq r) /\ 0 < len (seq r))).
Proof.
  intros Hin. apply in_accepted in Hin as [r0 [Hin0 [[Hv ->] | [Hv [Hne ->]]]]].
  - split; [now apply validate_sequence_iff | now left].
  - cbn [set_seq seq]. pose proof (clean_sequence_bases (seq r0)) as Hb.
    split; [now apply bases_upper_forall |]. right. split; [exact Hb |].
    destruct (clean_sequence upper_char (seq r0)); [congruence |].
    unfold len. cbn [List.length]. lia.
Qed.

(** C3, as the code has it: the uppercasing is local to validation and
    cleaning. A record valid on first pass is accepted with its sequence as
    it was read; a record invalid on first pass whose cleaning is not empty
    is accepted with the cleaned sequence, which is uppercase; and every
    accepted record is one or the other. *)
Theorem accepted_records_case (records : list SeqRecord) (r : SeqRecord) :
  (In r records ->
   validate_sequence upper_char (seq r) = true ->
   In r (valid_records (process_records upper_char records))) /\
  (In r records ->
   validate_sequence upper_char (seq r) = false ->
   clean_sequence upper_char (seq r) <> [] ->
   In (set_seq r (clean_sequence upper_char (seq r)))
      (valid_records (process_records upper_char records)) /\
   upper upper_char (clean_sequence upper_char (seq r)) =
     clean_sequence upper_char (seq r)) /\
  (In r (valid_records (process_records upper_char records)) ->
   (In r records /\ validate_sequence upper_char (seq r) = true) \/
   (exists r0, In r0 records /\
      validate_sequence upper_char (seq r0) = false /\
      r = set_seq r0 (clean_sequence upper_char (seq r0)) /\
      upper upper_char (seq r) = seq r)).
Proof.
  split; [| split].
  - intros Hin Hv. apply in_accepted. exists r. split; [exact Hin |].
    left. now split.
  - intros Hin Hv Hne. split.
    + apply in_accepted. exists r. split; [exact Hin |]. right. now repeat split.
    + apply upper_bases, clean_sequence_bases.
  - intros Hin.
    apply in_accepted in Hin as [r0 [Hin0 [[Hv ->] | [Hv [Hne ->]]]]].
    + left. now split.
    + right. exists r0. repeat split; try assumption.
      apply upper_bases, clean_sequence_bases.
Qed.

(** C4, as the code has it: the loop returns the accepted records in input
    order, each valid record kept and each invalid record replaced by its
    cleaned version when that is not empty; the count of invalid records is
    the number of records invalid on first pass, emptied or not; the count
    reported as valid is the number of accepted records, that is the
    records valid on first pass plus the cleaned records that were kept.
    A record with sequence XXX alone gives no accepted record, 0 and 1; the
    empty collection gives no accepted record, 0 and 0. *)
Theorem process_records_spec :
  (forall records : list SeqRecord,
      let st := process_records upper_char records in
      valid_records st = flat_map (accepted_of upper_char) records /\
      reported_invalid st = len (invalid_on_first_pass upper_char records) /\
      reported_valid st =
        len (valid_on_first_pass upper_char records) +
        len (cleaned_and_kept upper_char records)) /\
  (let st := process_records upper_char [mkRecord (pystr "s1") (pystr "XXX")] in
   valid_records st = [] /\ reported_valid st = 0 /\ reported_invalid st = 1) /\
  (let st := process_records upper_char [] in
   valid_records st = [] /\ reported_valid st = 0 /\ reported_invalid st = 0).
Proof.
  split; [| split].
  - intros records st. subst st. rewrite process_records_accepted.
    unfold reported_invalid, reported_valid. cbn [valid_records invalid_count].
    repeat split. unfold len. rewrite length_accepted. lia.
  - unfold process_records, process_record, validate_sequence, clean_sequence,
      upper, pystr. cbn [fold_left seq map list_ascii_of_string flat_map].
    rewrite !upper_ascii by reflexivity. cbn. repeat split.
  - cbn. repeat split.
Qed.

(** C10: the loop accepts at most as many records as it reads, and the
    number of records it drops is at most its count of invalid records. *)
Theorem accepted_and_dropped_bounds (records : list SeqRecord) :
  let st := process_records upper_char records in
  len (valid_records st) <= len records /\
  len records - len (valid_records st) <= invalid_count st.
Proof.
  intros st. subst st. rewrite process_records_accepted.
  cbn [valid_records invalid_count]. unfold len. rewrite length_accepted.
  pose proof (length_first_pass records).
  pose proof (length_cleaned_and_kept records). lia.
Qed.

End Properties.

(** ** Runs on ASCII input *)

Lemma ascii_upper_char_ascii (c : char) :
  (c < 128)%N -> ascii_upper_char c = ascii_upper_char c.
Proof. reflexivity. Defined.

Lemma not_base_lower_a : ~ Forall is_base (pystr "atgc").
Proof.
  intros H. inversion H as [| c s Hc Hs]; subst.
  apply in_valid_bases_iff in Hc. discriminate Hc.
Qed.

Lemma validate_sequence_spec_witness :
  validate_sequence ascii_upper_char (pystr "atgc") = true.
Proof.
  exact (proj2 (proj2 (validate_sequence_spec ascii_upper_char
                         ascii_upper_char_ascii))).
Defined.

Lemma clean_sequence_idempotent_valid_witness :
  clean_sequence ascii_upper_char (clean_sequence ascii_upper_char (pystr "atXGc")) =
  clean_sequence ascii_upper_char (pystr "atXGc") /\
  validate_sequence ascii_upper_char
    (clean_sequence ascii_upper_char (pystr "atXGc")) = true.
Proof.
  exact (proj1 (clean_sequence_idempotent_valid ascii_upper_char
                  ascii_upper_char_ascii) (pystr "atXGc")).
Defined.

Lemma accepted_records_alphabet_witness :
  Forall (fun c => Forall is_base (ascii_upper_char c)) (pystr "ATGC") /\
  (In (mkRecord (pystr "s1") (pystr "ATGC"))
      [mkRecord (pystr "s1") (pystr "ATXGC")] \/
   (Forall is_base (pystr "ATGC") /\ 0 < len (pystr "ATGC"))).
Proof.
  apply (accepted_records_alphabet ascii_upper_char ascii_upper_char_ascii
           [mkRecord (pystr "s1") (pystr "ATXGC")]
           (mkRecord (pystr "s1") (pystr "ATGC"))).
  vm_compute. left. reflexivity.
Defined.

(** C1 as stated fails: a lower-case record is valid and is accepted as it
    is, and so is a record whose sequence is empty. *)
Lemma survivors_alphabet_nonempty_counterexample :
  valid_records
    (process_records ascii_upper_char
       [mkRecord (pystr "s1") (pystr "atgc"); mkRecord (pystr "s2") (pystr "")]) =
  [mkRecord (pystr "s1") (pystr "atgc"); mkRecord (pystr "s2") (pystr "")] /\
  ~ Forall is_base (seq (mkRecord (pystr "s1") (pystr "atgc"))) /\
  len (seq (mkRecord (pystr "s2") (pystr ""))) = 0.
Proof.
  split; [reflexivity | split; [exact not_base_lower_a | reflexivity]].
Qed.

Lemma accepted_records_case_witness :
  In (mkRecord (pystr "s1") (pystr "atgc"))
     (valid_records
        (process_records ascii_upper_char
           [mkRecord (pystr "s1") (pystr "atgc");
            mkRecord (pystr "s2") (pystr "atXGc")])) /\
  (In (set_seq (mkRecord (pystr "s2") (pystr "atXGc"))
         (clean_sequence ascii_upper_char (pystr "atXGc")))
      (valid_records
         (process_records ascii_upper_char
            [mkRecord (pystr "s1") (pystr "atgc");
             mkRecord (pystr "s2") (pystr "atXGc")])) /\
   upper ascii_upper_char (clean_sequence ascii_upper_char (pystr "atXGc")) =
     clean_sequence ascii_upper_char (pystr "atXGc")).
Proof.
  split.
  - apply (accepted_records_case ascii_upper_char ascii_upper_char_ascii
             [mkRecord (pystr "s1") (pystr "atgc");
              mkRecord (pystr "s2") (pystr "atXGc")]
             (mkRecord (pystr "s1") (pystr "atgc")));
      [left; reflexivity | reflexivity].
  - apply (accepted_records_case ascii_upper_char ascii_upper_char_ascii
             [mkRecord (pystr "s1") (pystr "atgc");
              mkRecord (pystr "s2") (pystr "atXGc")]
             (mkRecord (pystr "s2") (pystr "atXGc")));
      [right; left; reflexivity | reflexivity | discriminate].
Defined.

(** C3 as stated fails: the record with sequence atgc is accepted and its
    sequence is not uppercase. *)
Lemma accepted_uppercase_counterexample :
  In (mkRecord (pystr "s1") (pystr "atgc"))
     (valid_records
        (process_records ascii_upper_char [mkRecord (pystr "s1") (pystr "atgc")])) /\
  upper ascii_upper_char (pystr "atgc") <> pystr "atgc".
Proof.
  split; [left; reflexivity | discriminate].
Qed.

Lemma process_records_spec_witness :
  let st := process_records ascii_upper_char
              [mkRecord (pystr "s1") (pystr "ATXGC")] in
  valid_records st = [mkRecord (pystr "s1") (pystr "ATGC")] /\
  reported_invalid st = 1 /\
  reported_valid st = 0 + 1.
Proof.
  exact (proj1 (process_records_spec ascii_upper_char ascii_upper_char_ascii)
           [mkRecord (pystr "s1") (pystr "ATXGC")]).
Defined.

(** C4 as stated fails on the count of valid records: for one record with
    sequence ATXGC the loop reports one valid record, and no record is
    valid on first pass. *)
Lemma valid_count_first_pass_counterexample :
  reported_valid
    (process_records ascii_upper_char [mkRecord (pystr "s1") (pystr "ATXGC")]) = 1 /\
  len (valid_on_first_pass ascii_upper_char
         [mkRecord (pystr "s1") (pystr "ATXGC")]) = 0.
Proof. split; reflexivity. Qed.

(** ** Runs of [calculate_statistics] *)

Example calculate_statistics_two :
  calculate_statistics
    [mkRecord (pystr "a") (pystr "AT"); mkRecord (pystr "b") (pystr "ATGC")] =
  Ok {| total_sequences := 2; total_bases := 6;
        avg_length := PyFloat (PrimFloat.of_uint63 3);
        shortest := (2, pystr "a"); longest := (4, pystr "b") |}.
Proof. vm_compute. reflexivity. Qed.


Lemma shortest_longest_tie_break_witness :
  exists st,
    calculate_statistics
      [mkRecord (pystr "b") (pystr "AT"); mkRecord (pystr "a") (pystr "AT")] =
    Ok st /\
    In (shortest st)
       (length_id_pairs
          [mkRecord (pystr "b") (pystr "AT"); mkRecord (pystr "a") (pystr "AT")]) /\
    In (longest st)
       (length_id_pairs
          [mkRecord (pystr "b") (pystr "AT"); mkRecord (pystr "a") (pystr "AT")]) /\
    forall r,
      In r [mkRecord (pystr "b") (pystr "AT"); mkRecord (pystr "a") (pystr "AT")] ->
      (fst (shortest st) < len (seq r) \/
       (fst (shortest st) = len (seq r) /\ str_le (snd (shortest st)) (id r))) /\
      (len (seq r) < fst (longest st) \/
       (len (seq r) = fst (longest st) /\ str_le (id r) (snd (longest st)))).
Proof.
  apply (shortest_longest_tie_break
           [mkRecord (pystr "b") (pystr "AT"); mkRecord (pystr "a") (pystr "AT")]).
  discriminate.
Defined.

Lemma calculate_statistics_permutation_witness :
  calculate_statistics
    [mkRecord (pystr "b") (pystr "AT"); mkRecord (pystr "a") (pystr "AT")] =
  calculate_statistics
    [mkRecord (pystr "a") (pystr "AT"); mkRecord (pystr "b") (pystr "AT")].
Proof.
  apply (calculate_statistics_permutation
           [mkRecord (pystr "b") (pystr "AT"); mkRecord (pystr "a") (pystr "AT")]
           [mkRecord (pystr "a") (pystr "AT"); mkRecord (pystr "b") (pystr "AT")]).
  apply perm_swap.
Defined.

(** C2 as stated fails: with b before a, both of length 2, the shortest
    reported is a; with a before b, the longest reported is b. *)
Lemma first_encountered_tie_counterexample :
  (exists st,
      calculate_statistics
        [mkRecord (pystr "b") (pystr "AT"); mkRecord (pystr "a") (pystr "AT")] =
      Ok st /\
      shortest st = (2, pystr "a") /\
      (len (pystr "AT"), pystr "b") <> shortest st) /\
  (exists st,
      calculate_statistics
        [mkRecord (pystr "a") (pystr "AT"); mkRecord (pystr "b") (pystr "AT")] =
      Ok st /\
      longest st = (2, pystr "b") /\
      (len (pystr "AT"), pystr "a") <> longest st).
Proof.
  split; eexists; (split; [reflexivity | split; [reflexivity | discriminate]]).
Qed.



(** * Further properties of the validator, the cleaner and the loop *)

Lemma filter_id_forallb {A : Type} (p : A -> bool) (l : list A) :
  filter p l = l <-> forallb p l = true.
Proof.
  induction l as [| x l IH]; cbn [filter forallb]; [tauto |].
  destruct (p x) eqn:E; cbn [andb].
  - rewrite <- IH. split; [now intros [= ->] | now intros ->].
  - split; [| discriminate]. intros H.
    pose proof (filter_length_le p l) as Hle. rewrite H in Hle.
    cbn [List.length] in Hle. lia.
Qed.

Lemma py_sum_app (xs ys : list Z) : py_sum (xs ++ ys) = py_sum xs + py_sum ys.
Proof.
  induction xs as [| x xs IH]; [reflexivity |].
  cbn [app]. rewrite !py_sum_cons, IH. lia.
Qed.

Lemma calculate_statistics_returns (records : list SeqRecord) :
  exists st, calculate_statistics records = Ok st /\
    total_sequences st = len records /\
    total_bases st = py_sum (lengths records).
Proof.
  destruct records as [| r rs].
  - eexists. split; [reflexivity | now split].
  - eexists. split; [apply calculate_statistics_cons | now split].
Qed.

Section Composition.

Variable upper_char : char -> str.

Hypothesis upper_ascii :
  forall c : char, (c < 128)%N -> upper_char c = ascii_upper_char c.

Lemma upper_app (a b : str) :
  upper upper_char (a ++ b) = upper upper_char a ++ upper upper_char b.
Proof. unfold upper. apply flat_map_app. Qed.

Lemma ascii_upper_char_length (c : char) :
  List.length (ascii_upper_char c) = 1%nat.
Proof. unfold ascii_upper_char. now destruct (_ && _)%bool. Qed.

Lemma upper_length_ascii (S : str) :
  Forall (fun c => (c < 128)%N) S ->
  List.length (upper upper_char S) = List.length S.
Proof.
  unfold upper. induction 1 as [| c S Hc _ IH]; [reflexivity |].
  cbn [flat_map]. rewrite length_app, IH, upper_ascii by exact Hc.
  now rewrite ascii_upper_char_length.
Qed.

(** X1: a sequence is valid exactly when cleaning it removes nothing, that
    is when the cleaned sequence is the uppercased sequence. *)
Theorem validate_iff_clean_removes_nothing (S : str) :
  validate_sequence upper_char S = true <->
  clean_sequence upper_char S = upper upper_char S.
Proof.
  unfold validate_sequence, clean_sequence.
  rewrite all_valid_forallb. symmetry. apply filter_id_forallb.
Qed.

(** X2: validation and cleaning work piece by piece: the cleaning of a
    concatenation is the concatenation of the cleanings, and a
    concatenation is valid exactly when both parts are. *)
Theorem validate_clean_concatenation (a b : str) :
  clean_sequence upper_char (a ++ b) =
    clean_sequence upper_char a ++ clean_sequence upper_char b /\
  validate_sequence upper_char (a ++ b) =
    validate_sequence upper_char a && validate_sequence upper_char b.
Proof.
  unfold validate_sequence, clean_sequence.
  rewrite upper_app, filter_app, !all_valid_forallb, forallb_app. now split.
Qed.

(** X3: on a sequence of ASCII characters the cleaned sequence is never
    longer than the sequence, and it has the same length exactly when the
    sequence is valid. *)
Theorem clean_sequence_length_ascii (S : str) :
  Forall (fun c => (c < 128)%N) S ->
  len (clean_sequence upper_char S) <= len S /\
  (len (clean_sequence upper_char S) = len S <->
   validate_sequence upper_char S = true).
Proof.
  intros HS. pose proof (upper_length_ascii S HS) as Hup.
  unfold validate_sequence, clean_sequence, len.
  pose proof (filter_length_le in_valid_bases (upper upper_char S)) as Hle.
  split; [lia |]. rewrite all_valid_forallb, <- filter_id_forallb.
  split; [| intros ->; lia]. intros Heq.
  assert (Hlen : List.length (filter in_valid_bases (upper upper_char S)) =
                 List.length (upper upper_char S)) by lia.
  clear - Hlen. induction (upper upper_char S) as [| x l IH]; [reflexivity |].
  cbn [filter] in *. destruct (in_valid_bases x).
  - cbn [List.length] in Hlen. f_equal. apply IH. lia.
  - pose proof (filter_length_le in_valid_bases l). cbn [List.length] in Hlen. lia.
Qed.

(** ** The loop *)

(** A record the loop keeps: valid, or invalid with a non-empty cleaning. *)
Definition kept (record : SeqRecord) : bool :=
  validate_sequence upper_char (seq record) ||
  truthy (clean_sequence upper_char (seq record)).

Lemma accepted_of_ids (records : list SeqRecord) :
  map id (flat_map (accepted_of upper_char) records) =
  map id (filter kept records).
Proof.
  induction records as [| r records IH]; [reflexivity |].
  cbn [flat_map filter]. rewrite map_app, IH. unfold kept, accepted_of.
  destruct (validate_sequence upper_char (seq r)); cbn [orb]; [reflexivity |].
  destruct (clean_sequence upper_char (seq r)); reflexivity.
Qed.

Lemma accepted_of_valid (records : list SeqRecord) :
  (forall r, In r records -> validate_sequence upper_char (seq r) = true) ->
  flat_map (accepted_of upper_char) records = records /\
  invalid_on_first_pass upper_char records = [].
Proof.
  unfold invalid_on_first_pass.
  induction records as [| r records IH]; intros H; [now split |].
  cbn [flat_map filter]. unfold accepted_of at 1.
  rewrite (H r (or_introl eq_refl)). cbn [negb app].
  destruct IH as [IH1 IH2]; [intros r' Hr'; apply H; now right |].
  now rewrite IH1, IH2.
Qed.

Lemma accepted_validate (records : list SeqRecord) (r : SeqRecord) :
  In r (valid_records (process_records upper_char records)) ->
  validate_sequence upper_char (seq r) = true.
Proof.
  intros Hin. apply in_accepted in Hin as [r0 [_ [[Hv ->] | [_ [_ ->]]]]].
  - exact Hv.
  - cbn [set_seq seq]. apply validate_sequence_iff, bases_upper_forall.
    + exact upper_ascii.
    + apply clean_sequence_bases.
Qed.

(** X4: the loop never changes an identifier and never reorders: the
    identifiers of the accepted records are, in order, those of the input
    records that are valid or whose cleaning is not empty. *)
Theorem accepted_ids_in_order (records : list SeqRecord) :
  map id (valid_records (process_records upper_char records)) =
  map id (filter kept records).
Proof.
  rewrite process_records_accepted. cbn [valid_records]. apply accepted_of_ids.
Qed.

(** X5: when every input record is valid the loop returns the input
    unchanged and counts no invalid record. *)
Theorem process_records_all_valid (records : list SeqRecord) :
  (forall r, In r records -> validate_sequence upper_char (seq r) = true) ->
  process_records upper_char records =
  {| valid_records := records; invalid_count := 0 |}.
Proof.
  intros H. rewrite process_records_accepted.
  destruct (accepted_of_valid records H) as [-> ->]. reflexivity.
Qed.

(** X6: running the loop on its own output changes nothing: the accepted
    records are accepted again as they are, with no invalid record. *)
Theorem process_records_stable (records : list SeqRecord) :
  process_records upper_char
    (valid_records (process_records upper_char records)) =
  {| valid_records := valid_records (process_records upper_char records);
     invalid_count := 0 |}.
Proof.
  rewrite (process_records_accepted upper_char (valid_records _)).
  destruct (accepted_of_valid _ (accepted_validate records)) as [-> ->].
  reflexivity.
Qed.

(** X7: the loop on a concatenation of two collections accepts the records
    accepted from the first followed by those accepted from the second,
    and its count of invalid records is the sum of the two counts. *)
Theorem process_records_concatenation (records1 records2 : list SeqRecord) :
  process_records upper_char (records1 ++ records2) =
  {| valid_records :=
       valid_records (process_records upper_char records1) ++
       valid_records (process_records upper_char records2);
     invalid_count :=
       invalid_count (process_records upper_char records1) +
       invalid_count (process_records upper_char records2) |}.
Proof.
  rewrite !process_records_accepted. cbn [valid_records invalid_count].
  rewrite flat_map_app. unfold invalid_on_first_pass, len.
  rewrite filter_app, length_app. f_equal. lia.
Qed.

(** X8: the count of invalid records lies between 0 and the number of
    input records, and the two counts printed after the loop add up to the
    number of input records plus the number of cleaned records that were
    kept, which are counted on both sides. *)
Theorem reported_counts_accounting (records : list SeqRecord) :
  let st := process_records upper_char records in
  0 <= reported_invalid st <= len records /\
  reported_valid st + reported_invalid st =
    len records + len (cleaned_and_kept upper_char records).
Proof.
  intros st. subst st. rewrite process_records_accepted.
  unfold reported_invalid, reported_valid, len.
  cbn [valid_records invalid_count]. rewrite length_accepted.
  pose proof (length_first_pass upper_char records). lia.
Qed.

(** X9: when no input record has an empty sequence, no accepted record has
    one either. *)
Theorem accepted_non_empty (records : list SeqRecord) (r : SeqRecord) :
  (forall r0, In r0 records -> seq r0 <> []) ->
  In r (valid_records (process_records upper_char records)) ->
  0 < len (seq r).
Proof.
  intros Hne Hin.
  assert (Hs : seq r <> []).
  { apply in_accepted in Hin as [r0 [Hin0 [[_ ->] | [_ [Hc ->]]]]];
      [now apply Hne | exact Hc]. }
  unfold len. destruct (seq r); [congruence | cbn [List.length]; lia].
Qed.

Lemma accepted_of_bases_ascii (r : SeqRecord) :
  Forall (fun c => (c < 128)%N) (seq r) ->
  py_sum (lengths (accepted_of upper_char r)) <= len (seq r).
Proof.
  intros Hr. unfold accepted_of.
  destruct (validate_sequence upper_char (seq r)).
  - cbn. lia.
  - pose proof (upper_length_ascii (seq r) Hr) as Hup.
    pose proof (filter_length_le in_valid_bases (upper upper_char (seq r))) as Hle.
    fold (clean_sequence upper_char (seq r)) in Hle.
    destruct (clean_sequence upper_char (seq r)) as [| c cleaned] eqn:E.
    + cbn. unfold len. lia.
    + unfold lengths. cbn [map set_seq seq]. rewrite py_sum_cons.
      change (py_sum []) with 0. unfold len. lia.
Qed.

(** X10: for input sequences of ASCII characters, the summary of the
    accepted records never reports more sequences or more bases than the
    summary of the input records; both summaries are returned. *)
Theorem accepted_statistics_bounded (records : list SeqRecord) :
  (forall r, In r records -> Forall (fun c => (c < 128)%N) (seq r)) ->
  exists st_in st_out,
    calculate_statistics records = Ok st_in /\
    calculate_statistics
      (valid_records (process_records upper_char records)) = Ok st_out /\
    total_sequences st_out <= total_sequences st_in /\
    total_bases st_out <= total_bases st_in.
Proof.
  intros Hascii.
  destruct (calculate_statistics_returns records) as [st_in [E1 [N1 B1]]].
  destruct (calculate_statistics_returns
              (valid_records (process_records upper_char records)))
    as [st_out [E2 [N2 B2]]].
  exists st_in, st_out. split; [exact E1 | split; [exact E2 |]].
  rewrite N1, N2, B1, B2, process_records_accepted. cbn [valid_records].
  split.
  - unfold len. rewrite length_accepted.
    pose proof (length_first_pass upper_char records).
    pose proof (length_cleaned_and_kept upper_char records). lia.
  - clear - upper_ascii Hascii.
    induction records as [| r records IH]; [cbn; lia |].
    cbn [flat_map]. unfold lengths in *. rewrite map_app, py_sum_app.
    cbn [map]. rewrite py_sum_cons.
    pose proof (accepted_of_bases_ascii r (Hascii r (or_introl eq_refl))) as Hr.
    unfold lengths in Hr.
    assert (IH' := IH (fun r' Hr' => Hascii r' (or_intror Hr'))). lia.
Qed.

End Composition.

(** * Further properties of [calculate_statistics] *)

Section ExtremumMerge.

Variable A : Type.
Variable cmp : A -> A -> comparison.

Hypothesis cmp_eq : forall x y, cmp x y = Eq <-> x = y.
Hypothesis cmp_antisym : forall x y, cmp y x = CompOpp (cmp x y).
Hypothesis cmp_trans :
  forall x y z, cmp x y = Lt -> cmp y z = Lt -> cmp x z = Lt.

(** The extremum of two lists put end to end is the better of the two
    extrema, the first one on a tie. *)
Lemma extremum_app (x y : A) (xs ys : list A) :
  extremum cmp x (xs ++ y :: ys) =
  match cmp (extremum cmp y ys) (extremum cmp x xs) with
  | Lt => extremum cmp y ys
  | _ => extremum cmp x xs
  end.
Proof.
  destruct (extremum_spec A cmp cmp_eq cmp_antisym cmp_trans (xs ++ y :: ys) x)
    as [Hin Hle].
  destruct (extremum_spec A cmp cmp_eq cmp_antisym cmp_trans xs x)
    as [Hin1 Hle1].
  destruct (extremum_spec A cmp cmp_eq cmp_antisym cmp_trans ys y)
    as [Hin2 Hle2].
  set (m := extremum cmp x (xs ++ y :: ys)) in *.
  set (m1 := extremum cmp x xs) in *.
  set (m2 := extremum cmp y ys) in *.
  assert (Hsplit : forall z, In z (x :: xs ++ y :: ys) <->
                             In z (x :: xs) \/ In z (y :: ys)).
  { intros z. rewrite app_comm_cons. apply in_app_iff. }
  assert (Hm1 : cmp m m1 <> Gt) by (apply Hle, Hsplit; now left).
  assert (Hm2 : cmp m m2 <> Gt) by (apply Hle, Hsplit; now right).
  apply (cmp_le_antisym A cmp cmp_eq cmp_antisym).
  - destruct (cmp m2 m1); assumption.
  - apply Hsplit in Hin as [Hin | Hin].
    + destruct (cmp m2 m1) eqn:E; [now apply Hle1 | | now apply Hle1].
      apply (cmp_le_trans A cmp cmp_eq cmp_trans) with m1;
        [congruence | now apply Hle1].
    + destruct (cmp m2 m1) eqn:E; [| now apply Hle2 |].
      * apply cmp_eq in E. rewrite <- E. now apply Hle2.
      * apply (cmp_le_trans A cmp cmp_eq cmp_trans) with m2;
          [| now apply Hle2].
        rewrite cmp_antisym, E. discriminate.
Qed.

End ExtremumMerge.

(** X11: [calculate_statistics] raises on no collection: the tests on the
    collection keep [min], [max] and the division away from the empty
    case; the summary counts every record and every base. *)
Theorem calculate_statistics_never_raises (records : list SeqRecord) :
  (forall e, calculate_statistics records <> Raise e) /\
  exists st, calculate_statistics records = Ok st /\
    total_sequences st = len records /\
    total_bases st = py_sum (lengths records).
Proof.
  destruct (calculate_statistics_returns records) as [st [E H]].
  split; [intros e; rewrite E; discriminate | now exists st].
Qed.

(** X12: the summary of two non-empty collections put end to end is made
    of the two summaries: counts and bases add up, the shortest is the
    smaller of the two shortest and the longest the greater of the two
    longest, as pairs (length, identifier). *)
Theorem calculate_statistics_concatenation
    (records1 records2 : list SeqRecord) (st1 st2 : stats) :
  records1 <> [] -> records2 <> [] ->
  calculate_statistics records1 = Ok st1 ->
  calculate_statistics records2 = Ok st2 ->
  exists st, calculate_statistics (records1 ++ records2) = Ok st /\
    total_sequences st = total_sequences st1 + total_sequences st2 /\
    total_bases st = total_bases st1 + total_bases st2 /\
    shortest st =
      (if tuple_ltb (shortest st2) (shortest st1)
       then shortest st2 else shortest st1) /\
    longest st =
      (if tuple_gtb (longest st2) (longest st1)
       then longest st2 else longest st1).
Proof.
  destruct records1 as [| r1 rs1]; [congruence | intros _].
  destruct records2 as [| r2 rs2]; [congruence | intros _].
  rewrite !calculate_statistics_cons. intros [= <-] [= <-].
  cbn [app]. rewrite calculate_statistics_cons. eexists. split; [reflexivity |].
  cbn [total_sequences total_bases shortest longest].
  repeat split.
  - unfold len. cbn [List.length]. rewrite length_app. cbn [List.length]. lia.
  - change (r1 :: rs1 ++ r2 :: rs2) with ((r1 :: rs1) ++ r2 :: rs2).
    unfold lengths. now rewrite map_app, py_sum_app.
  - unfold length_id_pairs. rewrite map_app. cbn [map].
    rewrite (extremum_app len_id tuple_compare tuple_compare_eq
               tuple_compare_antisym tuple_compare_trans).
    rewrite tuple_ltb_compare. now destruct (tuple_compare _ _).
  - unfold length_id_pairs. rewrite map_app. cbn [map].
    rewrite (extremum_app len_id (fun x y => tuple_compare y x)
               flip_compare_eq flip_compare_antisym flip_compare_trans).
    rewrite tuple_gtb_compare. now destruct (tuple_compare _ _).
Qed.

(** * The driver: [process_fasta] and [run_pipeline]

    The two functions are programs that call the operating system
    ([os.path.exists], [os.listdir], [os.makedirs]), the FASTA library
    ([SeqIO.parse], [SeqIO.write]) and [print]. A program is a tree of
    calls; what it does is read from its run against an environment that
    answers the calls. The text of a printed line is not modelled, only
    which line it is and the values put into it. *)

(** ** Library functions on names and paths *)

(** [s.startswith(prefix)] and [s.endswith(suffix)]. *)
Fixpoint startswith (s prefix : str) : bool :=
  match prefix, s with
  | [], _ => true
  | _ :: _, [] => false
  | p :: prefix', c :: s' => (c =? p)%N && startswith s' prefix'
  end.

Definition endswith (s suffix : str) : bool :=
  startswith (rev s) (rev suffix).

(** [s.endswith((x, y, ...))]: one of the suffixes fits. *)
Definition endswith_any (s : str) (suffixes : list str) : bool :=
  existsb (endswith s) suffixes.

Definition fasta_suffixes : list str :=
  [pystr ".fasta"; pystr ".fa"; pystr ".fna"].

(** [os.path.join(a, b)] and [os.path.basename(p)] as [posixpath] has
    them: [b] alone when it is absolute, [a] and [b] with a separator
    between them unless [a] is empty or ends with one; the part of [p]
    after its last separator. *)
Definition sep : char := 47%N.

Definition path_join (a b : str) : str :=
  if startswith b [sep] then b
  else if negb (truthy a) || endswith a [sep] then a ++ b
  else a ++ [sep] ++ b.

Fixpoint before_sep (s : str) : str :=
  match s with
  | [] => []
  | c :: rest => if (c =? sep)%N then [] else c :: before_sep rest
  end.

Definition basename (p : str) : str := rev (before_sep (rev p)).

(** ** Calls to the operating system and to the FASTA library *)

(** What [print] is given, one constructor for each [print] of the two
    functions, with the values it interpolates. *)
Inductive message : Type :=
| MsgProcessing (input_file : str)
| MsgRule
| MsgFileNotFound (input_file : str)
| MsgTotalRead (n : Z)
| MsgValid (n : Z)
| MsgInvalid (n : Z)
| MsgStatistics
| MsgTotalBases (n : Z)
| MsgAvgLength (x : number)
| MsgShortest (identifier : str) (n : Z)
| MsgLongest (identifier : str) (n : Z)
| MsgSaved (output_file : str)
| MsgBanner
| MsgTitle
| MsgNoFastaFound (input_dir : str)
| MsgCreateDataHint
| MsgFilesFound (n : Z)
| MsgSummaryBanner
| MsgSummaryTitle
| MsgTotalProcessed (n : Z)
| MsgOutputDir (output_dir : str)
| MsgDone.

Inductive os_call : Type :=
| PathExists (path : str)
| Listdir (path : str)
| SeqIOParse (path : str)
| Makedirs (path : str)
| SeqIOWrite (records : list SeqRecord) (path : str)
| Print (m : message).

Definition answer (c : os_call) : Type :=
  match c with
  | PathExists _ => bool
  | Listdir _ => list str
  | SeqIOParse _ => list SeqRecord
  | Makedirs _ | SeqIOWrite _ _ | Print _ => unit
  end.

(** A program: it returns, raises, or makes a call and goes on with the
    answer. *)
Inductive prog (A : Type) : Type :=
| Ret (a : A)
| Throw (e : exn)
| Call (c : os_call) (k : answer c -> prog A).
Arguments Ret {A} a.
Arguments Throw {A} e.
Arguments Call {A} c k.

Fixpoint pbind {A B : Type} (p : prog A) (k : A -> prog B) : prog B :=
  match p with
  | Ret a => k a
  | Throw e => Throw e
  | Call c k' => Call c (fun x => pbind (k' x) k)
  end.

Notation "'let*' x ':=' m 'in' k" := (pbind m (fun x => k))
  (at level 10, x name, m at level 100, k at level 200).
Notation "m ;;; k" := (pbind m (fun _ => k))
  (at level 62, right associativity).

Definition path_exists (path : str) : prog bool := Call (PathExists path) Ret.
Definition listdir (path : str) : prog (list str) := Call (Listdir path) Ret.
Definition seqio_parse (path : str) : prog (list SeqRecord) :=
  Call (SeqIOParse path) Ret.
Definition makedirs (path : str) : prog unit := Call (Makedirs path) Ret.
Definition seqio_write (records : list SeqRecord) (path : str) : prog unit :=
  Call (SeqIOWrite records path) Ret.
Definition print (m : message) : prog unit := Call (Print m) Ret.

(** A pure computation that may raise. *)
Definition lift {A : Type} (r : result A) : prog A :=
  match r with
  | Ok a => Ret a
  | Raise e => Throw e
  end.

(** [for x in xs: acc = body(acc, x)]. *)
Fixpoint for_each {A B : Type} (xs : list A) (acc : B)
    (body : B -> A -> prog B) : prog B :=
  match xs with
  | [] => Ret acc
  | x :: rest => let* acc' := body acc x in for_each rest acc' body
  end.

Section Driver.

Variable upper_char : char -> str.

(** The statistics block of [process_fasta], run only when some record
    was accepted. *)
Definition report_statistics (valid_records : list SeqRecord) : prog unit :=
  if truthy valid_records then
    let* stats := lift (calculate_statistics valid_records) in
    print MsgStatistics ;;;
    print (MsgTotalBases (total_bases stats)) ;;;
    print (MsgAvgLength (avg_length stats)) ;;;
    print (MsgShortest (snd (shortest stats)) (fst (shortest stats))) ;;;
    print (MsgLongest (snd (longest stats)) (fst (longest stats)))
  else Ret tt.

(** [process_fasta] with its calls; [process_fasta] above is what it
    returns once the file has been looked up and parsed. *)
Definition process_fasta_io (input_file output_dir : str)
    : prog (list SeqRecord) :=
  print (MsgProcessing input_file) ;;;
  print MsgRule ;;;
  let* found := path_exists input_file in
  if negb found then
    print (MsgFileNotFound input_file) ;;;
    Ret []
  else
    let* records := seqio_parse input_file in
    print (MsgTotalRead (len records)) ;;;
    let st := process_records upper_char records in
    print (MsgValid (len (valid_records st))) ;;;
    print (MsgInvalid (invalid_count st)) ;;;
    report_statistics (valid_records st) ;;;
    makedirs output_dir ;;;
    let output_file := path_join output_dir (basename input_file) in
    seqio_write (valid_records st) output_file ;;;
    print (MsgSaved output_file) ;;;
    Ret (valid_records st).

(** The loop that collects the FASTA files of the listing. *)
Definition collect_fasta_files (input_dir : str) (files : list str) : list str :=
  fold_left
    (fun fasta_files file =>
       if endswith_any file fasta_suffixes
       then fasta_files ++ [path_join input_dir file]
       else fasta_files)
    files [].

(** [run_pipeline]; [None] is the bare [return]. *)
Definition run_pipeline (input_dir output_dir : str)
    : prog (option (list SeqRecord)) :=
  print MsgBanner ;;;
  print MsgTitle ;;;
  print MsgBanner ;;;
  let* found := path_exists input_dir in
  let* fasta_files :=
    (if found then
       let* files := listdir input_dir in
       Ret (collect_fasta_files input_dir files)
     else Ret []) in
  if negb (truthy fasta_files) then
    print (MsgNoFastaFound input_dir) ;;;
    print MsgCreateDataHint ;;;
    Ret None
  else
    print (MsgFilesFound (len fasta_files)) ;;;
    let* all_records :=
      for_each fasta_files []
        (fun all_records fasta_file =>
           let* records := process_fasta_io fasta_file output_dir in
           Ret (all_records ++ records)) in
    print MsgSummaryBanner ;;;
    print MsgSummaryTitle ;;;
    print MsgBanner ;;;
    print (MsgTotalProcessed (len all_records)) ;;;
    print (MsgOutputDir output_dir) ;;;
    print MsgDone ;;;
    Ret (Some all_records).

(** [main]. *)
Definition main : prog unit :=
  run_pipeline (pystr "data") (pystr "processed") ;;; Ret tt.

End Driver.

(** ** Runs against an environment *)

(** What happened during a run: each call with its answer. *)
Inductive event : Type :=
| EvExists (path : str) (found : bool)
| EvListdir (path : str) (files : list str)
| EvParse (path : str) (records : list SeqRecord)
| EvMakedirs (path : str)
| EvWrite (records : list SeqRecord) (path : str)
| EvPrint (m : message).

Definition event_of (c : os_call) : answer c -> event :=
  match c with
  | PathExists path => fun found => EvExists path found
  | Listdir path => fun files => EvListdir path files
  | SeqIOParse path => fun records => EvParse path records
  | Makedirs path => fun _ => EvMakedirs path
  | SeqIOWrite records path => fun _ => EvWrite records path
  | Print m => fun _ => EvPrint m
  end.

(** An environment answers every call from its state [W] and moves to a
    new state; [run] gives the outcome of the program, the final state and
    the events in the order they happened. The answers are arbitrary: a
    property of [run] holds for every file system and every parser. A call
    that fails inside the operating system or the library ends the Python
    run with that exception; the runs described here are those in which
    every call returns. *)
Definition environment (W : Type) : Type :=
  forall c : os_call, W -> answer c * W.

Fixpoint run {W A : Type} (env : environment W) (p : prog A) (w : W)
    : result A * W * list event :=
  match p with
  | Ret a => (Ok a, w, [])
  | Throw e => (Raise e, w, [])
  | Call c k =>
      let (a, w1) := env c w in
      let '(r, w2, t) := run env (k a) w1 in
      (r, w2, event_of c a :: t)
  end.

Definition outcome {W A : Type} (env : environment W) (p : prog A) (w : W)
    : result A := fst (fst (run env p w)).

Definition trace {W A : Type} (env : environment W) (p : prog A) (w : W)
    : list event := snd (run env p w).

(** The files read and the files written during a run, in order. *)
Definition parsed (t : list event) : list (str * list SeqRecord) :=
  flat_map (fun ev => match ev with
                      | EvParse path records => [(path, records)]
                      | _ => []
                      end) t.

Definition written (t : list event) : list (list SeqRecord * str) :=
  flat_map (fun ev => match ev with
                      | EvWrite records path => [(records, path)]
                      | _ => []
                      end) t.

(** An environment with a fixed directory: two FASTA files and a text
    file; the first FASTA file has a lower-case record, a contaminated one
    and one that cleaning empties, the second has an empty record. *)
Definition demo_listing : list str :=
  [pystr "a.fasta"; pystr "notes.txt"; pystr "b.fa"].

Definition demo_records (path : str) : list SeqRecord :=
  if startswith path (pystr "data/a")
  then [mkRecord (pystr "s1") (pystr "atgc");
        mkRecord (pystr "s2") (pystr "ATXGC");
        mkRecord (pystr "s3") (pystr "XXX")]
  else [mkRecord (pystr "t1") (pystr "")].

Definition demo_env : environment unit :=
  fun c =>
    match c as c0 return unit -> answer c0 * unit with
    | PathExists _ => fun w => (true, w)
    | Listdir _ => fun w => (demo_listing, w)
    | SeqIOParse path => fun w => (demo_records path, w)
    | Makedirs _ | SeqIOWrite _ _ | Print _ => fun w => (tt, w)
    end.

Example demo_run_result :
  outcome demo_env (run_pipeline ascii_upper_char (pystr "data") (pystr "out")) tt =
  Ok (Some [mkRecord (pystr "s1") (pystr "atgc");
            mkRecord (pystr "s2") (pystr "ATGC");
            mkRecord (pystr "t1") (pystr "")]) /\
  written (trace demo_env
             (run_pipeline ascii_upper_char (pystr "data") (pystr "out")) tt) =
  [([mkRecord (pystr "s1") (pystr "atgc"); mkRecord (pystr "s2") (pystr "ATGC")],
    pystr "out/a.fasta");
   ([mkRecord (pystr "t1") (pystr "")], pystr "out/b.fa")].
Proof. split; vm_compute; reflexivity. Qed.

(** ** What a run of the driver does *)

(** The events of the statistics report of [process_fasta], which is made
    only for a non-empty list of accepted records. *)
Definition statistics_events (accepted : list SeqRecord) : list event :=
  match accepted, calculate_statistics accepted with
  | _ :: _, Ok stats =>
      [EvPrint MsgStatistics;
       EvPrint (MsgTotalBases (total_bases stats));
       EvPrint (MsgAvgLength (avg_length stats));
       EvPrint (MsgShortest (snd (shortest stats)) (fst (shortest stats)));
       EvPrint (MsgLongest (snd (longest stats)) (fst (longest stats)))]
  | _, _ => []
  end.

(** The events of one call of [process_fasta], given what the environment
    answered: whether the file exists and the records parsed from it. *)
Definition process_fasta_events (upper_char : char -> str)
    (input_file output_dir : str) (found : bool) (records : list SeqRecord)
    : list event :=
  [EvPrint (MsgProcessing input_file); EvPrint MsgRule;
   EvExists input_file found] ++
  (if found then
     let st := process_records upper_char records in
     [EvParse input_file records;
      EvPrint (MsgTotalRead (len records));
      EvPrint (MsgValid (len (valid_records st)));
      EvPrint (MsgInvalid (invalid_count st))] ++
     statistics_events (valid_records st) ++
     [EvMakedirs output_dir;
      EvWrite (valid_records st) (path_join output_dir (basename input_file));
      EvPrint (MsgSaved (path_join output_dir (basename input_file)))]
   else [EvPrint (MsgFileNotFound input_file)]).

Section Runs.

Variable upper_char : char -> str.
Variable W : Type.
Variable env : environment W.

Lemma run_pbind {A B : Type} (p : prog A) (k : A -> prog B) (w : W) :
  run env (pbind p k) w =
  match run env p w with
  | (Ok a, w1, t1) =>
      let '(r, w2, t2) := run env (k a) w1 in (r, w2, t1 ++ t2)
  | (Raise e, w1, t1) => (Raise e, w1, t1)
  end.
Proof.
  revert w. induction p as [a | e | c k' IH]; intros w; cbn [pbind run].
  - now destruct (run env (k a) w) as [[r w2] t2].
  - reflexivity.
  - destruct (env c w) as [a w1]. rewrite IH.
    destruct (run env (k' a) w1) as [[[x | e] w2] t1]; [| reflexivity].
    now destruct (run env (k x) w2) as [[r w3] t2].
Qed.

Lemma run_print {B : Type} (m : message) (k : unit -> prog B) (w : W) :
  run env (pbind (print m) k) w =
  let (a, w1) := env (Print m) w in
  let '(r, w2, t) := run env (k a) w1 in (r, w2, EvPrint m :: t).
Proof. reflexivity. Qed.

Lemma run_path_exists {B : Type} (path : str) (k : bool -> prog B) (w : W) :
  run env (pbind (path_exists path) k) w =
  let (found, w1) := env (PathExists path) w in
  let '(r, w2, t) := run env (k found) w1 in (r, w2, EvExists path found :: t).
Proof. reflexivity. Qed.

Lemma run_listdir {B : Type} (path : str) (k : list str -> prog B) (w : W) :
  run env (pbind (listdir path) k) w =
  let (files, w1) := env (Listdir path) w in
  let '(r, w2, t) := run env (k files) w1 in (r, w2, EvListdir path files :: t).
Proof. reflexivity. Qed.

Lemma run_statistics_report (accepted : list SeqRecord) (w : W) :
  exists w',
    run env (report_statistics accepted) w =
    (Ok tt, w', statistics_events accepted).
Proof.
  unfold statistics_events, report_statistics.
  destruct accepted as [| r rs]; cbn [truthy]; [now exists w |].
  destruct (calculate_statistics_returns (r :: rs)) as [st [-> _]].
  cbn [lift pbind print run].
  repeat match goal with
         | |- context [env ?c ?w0] => destruct (env c w0) as [[] ?]
         end.
  eexists. reflexivity.
Qed.

Lemma process_fasta_io_run (input_file output_dir : str) (w : W) :
  exists (found : bool) (records : list SeqRecord) (w' : W),
    run env (process_fasta_io upper_char input_file output_dir) w =
    (Ok (process_fasta upper_char (if found then Some records else None)),
     w',
     process_fasta_events upper_char input_file output_dir found records).
Proof.
  unfold process_fasta_io, process_fasta_events.
  cbn [pbind print path_exists run].
  destruct (env (Print (MsgProcessing input_file)) w) as [[] w1].
  destruct (env (Print MsgRule) w1) as [[] w2].
  destruct (env (PathExists input_file) w2) as [found w3].
  exists found. destruct found; cbn [negb].
  - cbn [pbind seqio_parse print run].
    destruct (env (SeqIOParse input_file) w3) as [records w4].
    exists records.
    repeat match goal with
           | |- context [env (Print ?m) ?w0] =>
               destruct (env (Print m) w0) as [[] ?]
           end.
    rewrite run_pbind.
    match goal with
    | |- context [run env _ ?w0] =>
        destruct (run_statistics_report
                    (valid_records (process_records upper_char records)) w0)
          as [w8 ->]
    end.
    cbn [pbind makedirs seqio_write print run].
    repeat match goal with
           | |- context [env ?c ?w0] => destruct (env c w0) as [[] ?]
           end.
    eexists. cbn [process_fasta app]. reflexivity.
  - exists []. cbn [pbind print run].
    destruct (env (Print (MsgFileNotFound input_file)) w3) as [[] w4].
    eexists. reflexivity.
Qed.

End Runs.

(** The events of the loop of [run_pipeline] over the FASTA files, given
    the environment's answers for each file, and the records the loop
    collects. *)
Definition loop_events (upper_char : char -> str) (output_dir : str)
    (fasta_files : list str) (answers : list (bool * list SeqRecord))
    : list event :=
  flat_map
    (fun fa : str * (bool * list SeqRecord) =>
       process_fasta_events upper_char (fst fa) output_dir
         (fst (snd fa)) (snd (snd fa)))
    (combine fasta_files answers).

Definition loop_records (upper_char : char -> str)
    (answers : list (bool * list SeqRecord)) : list SeqRecord :=
  flat_map
    (fun a : bool * list SeqRecord =>
       process_fasta upper_char (if fst a then Some (snd a) else None))
    answers.

(** The events of [run_pipeline], given the answers: whether the
    directory exists, its listing, and the answers for each FASTA file. *)
Definition run_pipeline_events (upper_char : char -> str)
    (input_dir output_dir : str) (found : bool) (files : list str)
    (answers : list (bool * list SeqRecord)) : list event :=
  let fasta_files :=
    if found then collect_fasta_files input_dir files else [] in
  [EvPrint MsgBanner; EvPrint MsgTitle; EvPrint MsgBanner;
   EvExists input_dir found] ++
  (if found then [EvListdir input_dir files] else []) ++
  (if truthy fasta_files then
     EvPrint (MsgFilesFound (len fasta_files)) ::
     loop_events upper_char output_dir fasta_files answers ++
     [EvPrint MsgSummaryBanner; EvPrint MsgSummaryTitle; EvPrint MsgBanner;
      EvPrint (MsgTotalProcessed (len (loop_records upper_char answers)));
      EvPrint (MsgOutputDir output_dir); EvPrint MsgDone]
   else [EvPrint (MsgNoFastaFound input_dir); EvPrint MsgCreateDataHint]).

Definition run_pipeline_result (upper_char : char -> str)
    (input_dir : str) (found : bool) (files : list str)
    (answers : list (bool * list SeqRecord)) : option (list SeqRecord) :=
  if truthy (if found then collect_fasta_files input_dir files else [])
  then Some (loop_records upper_char answers)
  else None.

Section PipelineRuns.

Variable upper_char : char -> str.
Variable W : Type.
Variable env : environment W.

Lemma run_process_loop (output_dir : str) (fasta_files : list str)
    (all_records : list SeqRecord) (w : W) :
  exists (answers : list (bool * list SeqRecord)) (w' : W),
    List.length answers = List.length fasta_files /\
    run env
      (for_each fasta_files all_records
         (fun all_records fasta_file =>
            let* records := process_fasta_io upper_char fasta_file output_dir in
            Ret (all_records ++ records))) w =
    (Ok (all_records ++ loop_records upper_char answers), w',
     loop_events upper_char output_dir fasta_files answers).
Proof.
  revert all_records w.
  induction fasta_files as [| f rest IH]; intros all_records w.
  - exists [], w. split; [reflexivity |]. cbn. now rewrite app_nil_r.
  - cbn [for_each]. rewrite !run_pbind.
    destruct (process_fasta_io_run upper_char W env f output_dir w)
      as [found [records [w1 ->]]].
    cbn [run].
    destruct (IH (all_records ++
                  process_fasta upper_char
                    (if found then Some records else None)) w1)
      as [answers [w2 [Hlen ->]]].
    exists ((found, records) :: answers), w2.
    split; [cbn [List.length]; now rewrite Hlen |].
    unfold loop_records, loop_events.
    cbn [combine flat_map fst snd app]. rewrite <- app_assoc, app_nil_r.
    reflexivity.
Qed.

Lemma run_after_listing (input_dir output_dir : str)
    (fasta_files : list str) (w : W) :
  exists (answers : list (bool * list SeqRecord)) (w' : W),
    List.length answers = List.length fasta_files /\
    run env
      (if negb (truthy fasta_files) then
         print (MsgNoFastaFound input_dir) ;;;
         print MsgCreateDataHint ;;;
         Ret None
       else
         print (MsgFilesFound (len fasta_files)) ;;;
         let* all_records :=
           for_each fasta_files []
             (fun all_records fasta_file =>
                let* records :=
                  process_fasta_io upper_char fasta_file output_dir in
                Ret (all_records ++ records)) in
         print MsgSummaryBanner ;;;
         print MsgSummaryTitle ;;;
         print MsgBanner ;;;
         print (MsgTotalProcessed (len all_records)) ;;;
         print (MsgOutputDir output_dir) ;;;
         print MsgDone ;;;
         Ret (Some all_records)) w =
    (Ok (if truthy fasta_files
         then Some (loop_records upper_char answers) else None), w',
     if truthy fasta_files then
       EvPrint (MsgFilesFound (len fasta_files)) ::
       loop_events upper_char output_dir fasta_files answers ++
       [EvPrint MsgSummaryBanner; EvPrint MsgSummaryTitle;
        EvPrint MsgBanner;
        EvPrint (MsgTotalProcessed (len (loop_records upper_char answers)));
        EvPrint (MsgOutputDir output_dir); EvPrint MsgDone]
     else [EvPrint (MsgNoFastaFound input_dir); EvPrint MsgCreateDataHint]).
Proof.
  destruct fasta_files as [| f rest].
  - exists []. cbn [truthy negb pbind print run].
    repeat match goal with
           | |- context [env ?c ?w0] => destruct (env c w0) as [[] ?]
           end.
    eexists. split; reflexivity.
  - cbn [truthy negb]. rewrite run_print.
    destruct (env (Print (MsgFilesFound (len (f :: rest)))) w) as [[] w6].
    rewrite run_pbind.
    destruct (run_process_loop output_dir (f :: rest) [] w6)
      as [answers [w7 [Hlen ->]]].
    cbn [app pbind print run].
    repeat match goal with
           | |- context [env ?c ?w0] => destruct (env c w0) as [[] ?]
           end.
    exists answers. eexists. split; [exact Hlen | reflexivity].
Qed.

Lemma run_pipeline_run (input_dir output_dir : str) (w : W) :
  exists (found : bool) (files : list str)
         (answers : list (bool * list SeqRecord)) (w' : W),
    List.length answers =
      List.length (if found then collect_fasta_files input_dir files else []) /\
    run env (run_pipeline upper_char input_dir output_dir) w =
    (Ok (run_pipeline_result upper_char input_dir found files answers), w',
     run_pipeline_events upper_char input_dir output_dir found files answers).
Proof.
  unfold run_pipeline, run_pipeline_events, run_pipeline_result.
  rewrite run_print. destruct (env (Print MsgBanner) w) as [[] w1].
  rewrite run_print. destruct (env (Print MsgTitle) w1) as [[] w2].
  rewrite run_print. destruct (env (Print MsgBanner) w2) as [[] w3].
  rewrite run_path_exists.
  destruct (env (PathExists input_dir) w3) as [found w4].
  exists found. destruct found.
  - rewrite run_pbind, run_listdir.
    destruct (env (Listdir input_dir) w4) as [files w5].
    exists files. cbn [run app].
    destruct (run_after_listing input_dir output_dir
                (collect_fasta_files input_dir files) w5)
      as [answers [w6 [Hlen ->]]].
    exists answers, w6. split; [exact Hlen | reflexivity].
  - exists []. rewrite run_pbind. cbn [run app].
    destruct (run_after_listing input_dir output_dir [] w4)
      as [answers [w6 [Hlen ->]]].
    exists answers, w6. split; [exact Hlen | reflexivity].
Qed.

End PipelineRuns.

(** ** Reading a trace *)

Lemma parsed_app (t1 t2 : list event) : parsed (t1 ++ t2) = parsed t1 ++ parsed t2.
Proof. apply flat_map_app. Qed.

Lemma written_app (t1 t2 : list event) :
  written (t1 ++ t2) = written t1 ++ written t2.
Proof. apply flat_map_app. Qed.

Lemma statistics_events_prints (accepted : list SeqRecord) :
  exists ms, statistics_events accepted = map EvPrint ms.
Proof.
  unfold statistics_events. destruct accepted as [| r rs]; [now exists [] |].
  destruct (calculate_statistics (r :: rs)) as [st | e]; [| now exists []].
  eexists [_; _; _; _; _]. reflexivity.
Qed.

Lemma parsed_prints (ms : list message) : parsed (map EvPrint ms) = [].
Proof. induction ms as [| m ms IH]; [reflexivity | exact IH]. Qed.

Lemma written_prints (ms : list message) : written (map EvPrint ms) = [].
Proof. induction ms as [| m ms IH]; [reflexivity | exact IH]. Qed.

Lemma makedirs_prints (ms : list message) (path : str) :
  ~ In (EvMakedirs path) (map EvPrint ms).
Proof. intros H. apply in_map_iff in H as [m [H _]]. discriminate H. Qed.

Section Traces.

Variable upper_char : char -> str.

Definition accepted (records : list SeqRecord) : list SeqRecord :=
  valid_records (process_records upper_char records).

Lemma parsed_process_fasta_events (input_file output_dir : str)
    (found : bool) (records : list SeqRecord) :
  parsed (process_fasta_events upper_char input_file output_dir found records) =
  if found then [(input_file, records)] else [].
Proof.
  unfold process_fasta_events. destruct found; [| reflexivity].
  destruct (statistics_events_prints
              (valid_records (process_records upper_char records)))
    as [ms ->].
  rewrite !parsed_app, parsed_prints. reflexivity.
Qed.

Lemma written_process_fasta_events (input_file output_dir : str)
    (found : bool) (records : list SeqRecord) :
  written (process_fasta_events upper_char input_file output_dir found records) =
  if found
  then [(accepted records, path_join output_dir (basename input_file))]
  else [].
Proof.
  unfold process_fasta_events. destruct found; [| reflexivity].
  destruct (statistics_events_prints
              (valid_records (process_records upper_char records)))
    as [ms ->].
  rewrite !written_app, written_prints. reflexivity.
Qed.

Lemma parsed_loop_events (output_dir : str) (fasta_files : list str)
    (answers : list (bool * list SeqRecord)) :
  parsed (loop_events upper_char output_dir fasta_files answers) =
  flat_map
    (fun fa : str * (bool * list SeqRecord) =>
       if fst (snd fa) then [(fst fa, snd (snd fa))] else [])
    (combine fasta_files answers).
Proof.
  unfold loop_events.
  induction (combine fasta_files answers) as [| fa l IH]; [reflexivity |].
  cbn [flat_map]. now rewrite parsed_app, parsed_process_fasta_events, IH.
Qed.

Lemma written_loop_events (output_dir : str) (fasta_files : list str)
    (answers : list (bool * list SeqRecord)) :
  written (loop_events upper_char output_dir fasta_files answers) =
  map (fun pr : str * list SeqRecord =>
         (accepted (snd pr), path_join output_dir (basename (fst pr))))
      (parsed (loop_events upper_char output_dir fasta_files answers)).
Proof.
  rewrite parsed_loop_events. unfold loop_events.
  induction (combine fasta_files answers) as [| fa l IH]; [reflexivity |].
  cbn [flat_map]. rewrite written_app, written_process_fasta_events, IH.
  rewrite map_app. now destruct (fst (snd fa)).
Qed.

Lemma loop_records_parsed (output_dir : str) (fasta_files : list str)
    (answers : list (bool * list SeqRecord)) :
  List.length answers = List.length fasta_files ->
  loop_records upper_char answers =
  flat_map (fun pr : str * list SeqRecord => accepted (snd pr))
           (parsed (loop_events upper_char output_dir fasta_files answers)).
Proof.
  rewrite parsed_loop_events. unfold loop_records. revert answers.
  induction fasta_files as [| f rest IH]; intros [| a answers] Hlen;
    try discriminate Hlen; [reflexivity |].
  cbn [combine flat_map fst snd]. rewrite flat_map_app, <- IH
    by (cbn [List.length] in Hlen; lia).
  f_equal. destruct (fst a); [cbn; now rewrite app_nil_r | reflexivity].
Qed.

Lemma parsed_loop_paths (output_dir : str) (fasta_files : list str)
    (answers : list (bool * list SeqRecord)) (pr : str * list SeqRecord) :
  In pr (parsed (loop_events upper_char output_dir fasta_files answers)) ->
  In (fst pr) fasta_files.
Proof.
  rewrite parsed_loop_events. intros H.
  apply in_flat_map in H as [[f [found records]] [Hin H]].
  cbn [fst snd] in H. destruct found; [| destruct H].
  destruct H as [<- | []]. cbn [fst]. eapply in_combine_l, Hin.
Qed.

(** The files read and written by a whole run of [run_pipeline]. *)
Lemma parsed_run_pipeline_events (input_dir output_dir : str) (found : bool)
    (files : list str) (answers : list (bool * list SeqRecord)) :
  parsed (run_pipeline_events upper_char input_dir output_dir found files answers) =
  parsed (loop_events upper_char output_dir
            (if found then collect_fasta_files input_dir files else [])
            answers).
Proof.
  unfold run_pipeline_events.
  set (fasta_files := if found then collect_fasta_files input_dir files else []).
  assert (Hpre : forall t,
             parsed ([EvPrint MsgBanner; EvPrint MsgTitle; EvPrint MsgBanner;
                      EvExists input_dir found] ++
                     (if found then [EvListdir input_dir files] else []) ++ t) =
             parsed t) by (intros t; now destruct found).
  rewrite Hpre. destruct fasta_files as [| f rest]; cbn [truthy].
  - reflexivity.
  - change (parsed (EvPrint ?m :: ?t)) with (parsed t).
    rewrite parsed_app. cbn. now rewrite app_nil_r.
Qed.

Lemma written_run_pipeline_events (input_dir output_dir : str) (found : bool)
    (files : list str) (answers : list (bool * list SeqRecord)) :
  written (run_pipeline_events upper_char input_dir output_dir found files answers) =
  written (loop_events upper_char output_dir
             (if found then collect_fasta_files input_dir files else [])
             answers).
Proof.
  unfold run_pipeline_events.
  set (fasta_files := if found then collect_fasta_files input_dir files else []).
  assert (Hpre : forall t,
             written ([EvPrint MsgBanner; EvPrint MsgTitle; EvPrint MsgBanner;
                       EvExists input_dir found] ++
                      (if found then [EvListdir input_dir files] else []) ++ t) =
             written t) by (intros t; now destruct found).
  rewrite Hpre. destruct fasta_files as [| f rest]; cbn [truthy].
  - reflexivity.
  - change (written (EvPrint ?m :: ?t)) with (written t).
    rewrite written_app. cbn. now rewrite app_nil_r.
Qed.

End Traces.

(** ** Names and paths *)

Lemma startswith_iff (s prefix : str) :
  startswith s prefix = true <-> exists rest, s = prefix ++ rest.
Proof.
  revert s. induction prefix as [| p prefix IH]; intros s.
  - split; [intros _; now exists s | now destruct s].
  - destruct s as [| c s]; cbn [startswith].
    + split; [discriminate | intros [rest H]; discriminate H].
    + rewrite andb_true_iff, N.eqb_eq, IH. split.
      * intros [-> [rest ->]]. now exists rest.
      * intros [rest [= -> ->]]. split; [reflexivity | now exists rest].
Qed.

Lemma endswith_iff (s suffix : str) :
  endswith s suffix = true <-> exists stem, s = stem ++ suffix.
Proof.
  unfold endswith. rewrite startswith_iff. split.
  - intros [rest H]. exists (rev rest).
    rewrite <- (rev_involutive s), H, rev_app_distr, rev_involutive.
    reflexivity.
  - intros [stem ->]. exists (rev stem). apply rev_app_distr.
Qed.

Lemma collect_fasta_files_filter (input_dir : str) (files : list str) :
  collect_fasta_files input_dir files =
  map (path_join input_dir)
      (filter (fun file => endswith_any file fasta_suffixes) files).
Proof.
  unfold collect_fasta_files.
  assert (H : forall acc,
             fold_left
               (fun fasta_files file =>
                  if endswith_any file fasta_suffixes
                  then fasta_files ++ [path_join input_dir file]
                  else fasta_files) files acc =
             acc ++ map (path_join input_dir)
                        (filter (fun file => endswith_any file fasta_suffixes)
                                files)).
  { induction files as [| file files IH]; intros acc; cbn [fold_left filter].
    - now rewrite app_nil_r.
    - rewrite IH. destruct (endswith_any file fasta_suffixes);
        [cbn [map]; now rewrite <- app_assoc | reflexivity]. }
  apply (H []).
Qed.

Lemma before_sep_app (a b : str) :
  ~ In sep a -> before_sep (a ++ sep :: b) = a.
Proof.
  induction a as [| c a IH]; intros H; cbn [app before_sep].
  - now rewrite N.eqb_refl.
  - destruct (N.eqb_spec c sep) as [-> | _]; [exfalso; apply H; now left |].
    f_equal. apply IH. intros Hin. apply H. now right.
Qed.

Lemma before_sep_none (a : str) : ~ In sep a -> before_sep a = a.
Proof.
  induction a as [| c a IH]; intros H; cbn [before_sep]; [reflexivity |].
  destruct (N.eqb_spec c sep) as [-> | _]; [exfalso; apply H; now left |].
  f_equal. apply IH. intros Hin. apply H. now right.
Qed.

Lemma basename_after_sep (a b : str) :
  ~ In sep b -> basename (a ++ sep :: b) = b.
Proof.
  intros H. unfold basename.
  rewrite rev_app_distr. cbn [rev]. rewrite <- app_assoc. cbn [app].
  rewrite before_sep_app by (now rewrite <- in_rev). apply rev_involutive.
Qed.

Lemma basename_path_join (directory file : str) :
  ~ In sep file -> basename (path_join directory file) = file.
Proof.
  intros H. unfold path_join.
  destruct (startswith file [sep]) eqn:Es.
  - apply startswith_iff in Es as [rest ->]. exfalso. apply H. now left.
  - destruct directory as [| c d]; cbn [truthy negb orb].
    + cbn [app]. unfold basename.
      rewrite before_sep_none by (now rewrite <- in_rev). apply rev_involutive.
    + destruct (endswith (c :: d) [sep]) eqn:Ee.
      * apply endswith_iff in Ee as [stem ->]. rewrite <- app_assoc.
        now apply basename_after_sep.
      * now apply basename_after_sep.
Qed.

(** X13: the loop that collects the FASTA files keeps, in the order of
    the listing, the names that end with .fasta, .fa or .fna, each joined
    to the input directory; a name ends so exactly when it is some stem
    followed by one of the three suffixes. *)
Theorem collect_fasta_files_spec (input_dir : str) (files : list str) :
  collect_fasta_files input_dir files =
    map (path_join input_dir)
        (filter (fun file => endswith_any file fasta_suffixes) files) /\
  forall file,
    endswith_any file fasta_suffixes = true <->
    exists stem,
      file = stem ++ pystr ".fasta" \/ file = stem ++ pystr ".fa" \/
      file = stem ++ pystr ".fna".
Proof.
  split; [apply collect_fasta_files_filter |]. intros file.
  unfold endswith_any, fasta_suffixes. cbn [existsb].
  rewrite !orb_true_iff, !endswith_iff. split.
  - intros [[stem H] | [[stem H] | [[stem H] | H]]]; try discriminate H;
      exists stem; tauto.
  - intros [stem [H | [H | H]]]; [left | right; left | right; right; left];
      now exists stem.
Qed.

(** ** Properties of the driver, for every environment *)

Section DriverProperties.

Variable upper_char : char -> str.
Variable W : Type.
Variable env : environment W.

Hypothesis upper_ascii :
  forall c : char, (c < 128)%N -> upper_char c = ascii_upper_char c.

Lemma in_statistics_events (accepted : list SeqRecord) :
  In (EvPrint MsgStatistics) (statistics_events accepted) <-> accepted <> [].
Proof.
  unfold statistics_events. destruct accepted as [| r rs].
  - split; [intros [] | congruence].
  - destruct (calculate_statistics_returns (r :: rs)) as [st [-> _]].
    split; [discriminate | intros _; now left].
Qed.

Lemma in_statistics_total_bases (accepted : list SeqRecord) :
  accepted <> [] ->
  In (EvPrint (MsgTotalBases (py_sum (lengths accepted))))
     (statistics_events accepted).
Proof.
  unfold statistics_events. destruct accepted as [| r rs]; [congruence |].
  intros _. destruct (calculate_statistics_returns (r :: rs))
    as [st [-> [_ <-]]].
  right. now left.
Qed.

(** X14: [process_fasta] on a file that exists parses it once, creates
    the output directory and writes once, to the output directory under
    the base name of the input file, the accepted records, which it
    returns, even when there is none; on a file that does not exist it
    returns the empty list and parses, creates and writes nothing. It
    never raises by itself. *)
Theorem process_fasta_io_spec (input_file output_dir : str) (w : W) :
  let t := trace env (process_fasta_io upper_char input_file output_dir) w in
  let r := outcome env (process_fasta_io upper_char input_file output_dir) w in
  (exists records,
      In (EvExists input_file true) t /\
      parsed t = [(input_file, records)] /\
      In (EvMakedirs output_dir) t /\
      written t =
        [(accepted upper_char records,
          path_join output_dir (basename input_file))] /\
      r = Ok (accepted upper_char records)) \/
  (In (EvExists input_file false) t /\
   parsed t = [] /\
   ~ In (EvMakedirs output_dir) t /\
   written t = [] /\
   r = Ok []).
Proof.
  intros t r. subst t r. unfold trace, outcome.
  destruct (process_fasta_io_run upper_char W env input_file output_dir w)
    as [found [records [w' ->]]].
  cbn [fst snd].
  rewrite parsed_process_fasta_events, written_process_fasta_events.
  destruct found; [left; exists records | right].
  - repeat split.
    + unfold process_fasta_events. cbn. tauto.
    + unfold process_fasta_events. rewrite !in_app_iff. right. right. right.
      now left.
  - repeat split.
    + unfold process_fasta_events. cbn. tauto.
    + unfold process_fasta_events. cbn.
      intros [H | [H | [H | [H | []]]]]; discriminate H.
Qed.

(** X15: [process_fasta] prints the statistics exactly when it accepts at
    least one record, and the total of bases it then prints is the sum of
    the lengths of the accepted records, after cleaning. *)
Theorem statistics_reported_iff_accepted (input_file output_dir : str) (w : W) :
  let t := trace env (process_fasta_io upper_char input_file output_dir) w in
  exists returned,
    outcome env (process_fasta_io upper_char input_file output_dir) w =
      Ok returned /\
    (In (EvPrint MsgStatistics) t <-> returned <> []) /\
    (returned <> [] ->
     In (EvPrint (MsgTotalBases (py_sum (lengths returned)))) t).
Proof.
  intros t. subst t. unfold trace, outcome.
  destruct (process_fasta_io_run upper_char W env input_file output_dir w)
    as [found [records [w' ->]]].
  cbn [fst snd]. eexists. split; [reflexivity |].
  unfold process_fasta_events. destruct found; cbn [process_fasta].
  - split.
    + rewrite <- in_statistics_events. rewrite !in_app_iff. cbn [In].
      split; [| tauto].
      intros [[H | [H | [H | []]]] | [[H | [H | [H | [H | []]]]] | [H | H]]];
        try discriminate H; [exact H |].
      destruct H as [H | [H | [H | []]]]; discriminate H.
    + intros Hne. rewrite !in_app_iff. right. right. left.
      now apply in_statistics_total_bases.
  - split; [| congruence]. cbn.
    split; [| congruence].
    intros [H | [H | [H | [H | []]]]]; discriminate H.
Qed.

Lemma filter_nil_iff {A : Type} (p : A -> bool) (l : list A) :
  filter p l = [] <-> forall x, In x l -> p x = false.
Proof.
  induction l as [| x l IH]; cbn [filter].
  - split; [intros _ y [] | reflexivity].
  - destruct (p x) eqn:E.
    + split; [discriminate |]. intros H.
      rewrite (H x (or_introl eq_refl)) in E. discriminate E.
    + rewrite IH. split.
      * intros H y [<- | Hy]; [exact E | now apply H].
      * intros H y Hy. apply H. now right.
Qed.

Lemma accepted_length_le (records : list SeqRecord) :
  len (accepted upper_char records) <= len records.
Proof.
  unfold accepted. rewrite process_records_accepted. cbn [valid_records].
  unfold len. rewrite length_accepted.
  pose proof (length_first_pass upper_char records).
  pose proof (length_cleaned_and_kept upper_char records). lia.
Qed.

(** The FASTA files of a run, from the answers of the environment. *)
Lemma parsed_selected (input_dir output_dir : str) (found : bool)
    (files : list str) (answers : list (bool * list SeqRecord))
    (pr : str * list SeqRecord) :
  In pr (parsed (run_pipeline_events upper_char input_dir output_dir
                   found files answers)) ->
  found = true /\
  exists file, In file files /\
    endswith_any file fasta_suffixes = true /\
    fst pr = path_join input_dir file.
Proof.
  rewrite parsed_run_pipeline_events. intros H.
  apply parsed_loop_paths in H. destruct found; [| destruct H].
  split; [reflexivity |].
  rewrite collect_fasta_files_filter in H.
  apply in_map_iff in H as [file [Hp Hf]]. apply filter_In in Hf as [Hin Hs].
  now exists file.
Qed.

Lemma in_listdir_event (input_dir output_dir : str) (files : list str)
    (answers : list (bool * list SeqRecord)) :
  In (EvListdir input_dir files)
     (run_pipeline_events upper_char input_dir output_dir true files answers).
Proof. unfold run_pipeline_events. cbn. tauto. Qed.

(** X16: [run_pipeline] never raises by itself. Every file it parses is
    written once, to the output directory under the base name of the file,
    with the records accepted from it; when it returns a list, the list is
    made of the records accepted from the parsed files, in the order they
    were parsed; when it returns nothing, it has parsed no file. *)
Theorem run_pipeline_spec (input_dir output_dir : str) (w : W) :
  let t := trace env (run_pipeline upper_char input_dir output_dir) w in
  exists res,
    outcome env (run_pipeline upper_char input_dir output_dir) w = Ok res /\
    written t =
      map (fun pr : str * list SeqRecord =>
             (accepted upper_char (snd pr),
              path_join output_dir (basename (fst pr))))
          (parsed t) /\
    match res with
    | Some all_records =>
        all_records =
        flat_map (fun pr : str * list SeqRecord => accepted upper_char (snd pr))
                 (parsed t)
    | None => parsed t = []
    end.
Proof.
  intros t. subst t. unfold trace, outcome.
  destruct (run_pipeline_run upper_char W env input_dir output_dir w)
    as [found [files [answers [w' [Hlen ->]]]]].
  cbn [fst snd]. eexists. split; [reflexivity |].
  rewrite parsed_run_pipeline_events, written_run_pipeline_events.
  split; [apply written_loop_events |].
  unfold run_pipeline_result.
  destruct (if found then collect_fasta_files input_dir files else [])
    as [| f rest]; cbn [truthy].
  - reflexivity.
  - now apply loop_records_parsed.
Qed.

(** X17: [run_pipeline] parses only files of the listing of the input
    directory whose name ends with .fasta, .fa or .fna, each under the
    path made of the input directory and the name. *)
Theorem run_pipeline_reads_fasta_only (input_dir output_dir : str) (w : W)
    (path : str) (records : list SeqRecord) :
  let t := trace env (run_pipeline upper_char input_dir output_dir) w in
  In (path, records) (parsed t) ->
  exists files file,
    In (EvListdir input_dir files) t /\
    In file files /\
    endswith_any file fasta_suffixes = true /\
    path = path_join input_dir file.
Proof.
  intros t. subst t. unfold trace.
  destruct (run_pipeline_run upper_char W env input_dir output_dir w)
    as [found [files [answers [w' [Hlen ->]]]]].
  cbn [snd]. intros Hin.
  destruct (parsed_selected _ _ _ _ _ _ Hin) as [-> [file [Hf [Hs Hp]]]].
  exists files, file. repeat split; try assumption. apply in_listdir_event.
Qed.

(** X18: a run of [run_pipeline] starts with the three banner lines and
    the test that the input directory exists, and lists the directory only
    if it exists. It returns nothing exactly when the directory does not
    exist or no listed name ends with .fasta, .fa or .fna; it then only
    prints its two notices: nothing is parsed, created or written. *)
Theorem run_pipeline_nothing_to_do (input_dir output_dir : str) (w : W) :
  exists (found : bool) (files : list str) (rest : list event),
    trace env (run_pipeline upper_char input_dir output_dir) w =
      [EvPrint MsgBanner; EvPrint MsgTitle; EvPrint MsgBanner;
       EvExists input_dir found] ++
      (if found then [EvListdir input_dir files] else []) ++ rest /\
    (outcome env (run_pipeline upper_char input_dir output_dir) w = Ok None <->
     found = false \/
     forall file, In file files -> endswith_any file fasta_suffixes = false) /\
    (outcome env (run_pipeline upper_char input_dir output_dir) w = Ok None ->
     rest = [EvPrint (MsgNoFastaFound input_dir); EvPrint MsgCreateDataHint]).
Proof.
  unfold trace, outcome.
  destruct (run_pipeline_run upper_char W env input_dir output_dir w)
    as [found [files [answers [w' [Hlen ->]]]]].
  cbn [fst snd]. exists found, files.
  unfold run_pipeline_events, run_pipeline_result.
  eexists. split; [reflexivity |].
  assert (Hnil : (if found then collect_fasta_files input_dir files else []) = []
                 <-> found = false \/
                     forall file, In file files ->
                                  endswith_any file fasta_suffixes = false).
  { destruct found.
    - rewrite collect_fasta_files_filter. rewrite <- filter_nil_iff. split.
      + intros H. right. now apply map_eq_nil in H.
      + intros [H | H]; [discriminate H | now rewrite H].
    - split; [now left | reflexivity]. }
  destruct (if found then collect_fasta_files input_dir files else [])
    as [| f rest]; cbn [truthy].
  - split; [| reflexivity]. split; [intros _; now apply Hnil | reflexivity].
  - split; [| discriminate]. split; [discriminate |].
    intros H. apply Hnil in H. discriminate H.
Qed.

(** X19: when the names of the listing have no separator, every file
    [run_pipeline] writes is a FASTA file of the listing, written under
    its own name in the output directory, with the records accepted from
    what was parsed from it in the input directory. *)
Theorem run_pipeline_outputs_keep_names (input_dir output_dir : str) (w : W)
    (records : list SeqRecord) (path : str) :
  let t := trace env (run_pipeline upper_char input_dir output_dir) w in
  (forall files file,
      In (EvListdir input_dir files) t -> In file files -> ~ In sep file) ->
  In (records, path) (written t) ->
  exists file parsed_records,
    endswith_any file fasta_suffixes = true /\
    In (path_join input_dir file, parsed_records) (parsed t) /\
    records = accepted upper_char parsed_records /\
    path = path_join output_dir file.
Proof.
  intros t. subst t. unfold trace.
  destruct (run_pipeline_run upper_char W env input_dir output_dir w)
    as [found [files [answers [w' [Hlen ->]]]]].
  cbn [snd]. intros Hnames Hin.
  rewrite written_run_pipeline_events, written_loop_events in Hin.
  rewrite <- parsed_run_pipeline_events with (input_dir := input_dir) in Hin.
  apply in_map_iff in Hin as [[p parsed_records] [[= <- <-] Hp]].
  destruct (parsed_selected _ _ _ _ _ _ Hp) as [-> [file [Hf [Hs Hpath]]]].
  cbn [fst snd] in *. subst p.
  exists file, parsed_records. repeat split; try assumption.
  rewrite basename_path_join; [reflexivity |].
  apply (Hnames files file); [apply in_listdir_event | exact Hf].
Qed.

(** X20: every record of the list returned by [run_pipeline] passes
    [validate_sequence], and the list has at most as many records as were
    parsed from the files. *)
Theorem run_pipeline_returns_valid (input_dir output_dir : str) (w : W)
    (all_records : list SeqRecord) :
  let t := trace env (run_pipeline upper_char input_dir output_dir) w in
  outcome env (run_pipeline upper_char input_dir output_dir) w =
    Ok (Some all_records) ->
  (forall r, In r all_records ->
             validate_sequence upper_char (seq r) = true) /\
  len all_records <= py_sum (map (fun pr => len (snd pr)) (parsed t)).
Proof.
  intros t. subst t. unfold trace, outcome.
  destruct (run_pipeline_run upper_char W env input_dir output_dir w)
    as [found [files [answers [w' [Hlen ->]]]]].
  cbn [fst snd]. rewrite parsed_run_pipeline_events.
  unfold run_pipeline_result.
  destruct (truthy (if found then collect_fasta_files input_dir files else []));
    [| discriminate].
  intros [= <-].
  rewrite (loop_records_parsed upper_char output_dir _ answers Hlen).
  set (l := parsed _). clearbody l. split.
  - intros r Hr. apply in_flat_map in Hr as [pr [_ Hr]].
    now apply (accepted_validate upper_char upper_ascii (snd pr)).
  - induction l as [| pr l IH]; [cbn; lia |].
    cbn [flat_map map]. rewrite py_sum_cons, len_app.
    pose proof (accepted_length_le (snd pr)). lia.
Qed.

End DriverProperties.

(** ** Runs of the further properties *)

Lemma ascii_atXGc : Forall (fun c => (c < 128)%N) (pystr "atXGc").
Proof. repeat constructor. Defined.

Lemma clean_sequence_length_ascii_witness :
  len (clean_sequence ascii_upper_char (pystr "atXGc")) <= len (pystr "atXGc") /\
  (len (clean_sequence ascii_upper_char (pystr "atXGc")) = len (pystr "atXGc") <->
   validate_sequence ascii_upper_char (pystr "atXGc") = true).
Proof.
  exact (clean_sequence_length_ascii ascii_upper_char ascii_upper_char_ascii
           (pystr "atXGc") ascii_atXGc).
Defined.

Lemma process_records_all_valid_witness :
  process_records ascii_upper_char
    [mkRecord (pystr "s1") (pystr "atgc"); mkRecord (pystr "s2") (pystr "ATGC")] =
  {| valid_records :=
       [mkRecord (pystr "s1") (pystr "atgc");
        mkRecord (pystr "s2") (pystr "ATGC")];
     invalid_count := 0 |}.
Proof.
  apply (process_records_all_valid ascii_upper_char).
  intros r [<- | [<- | []]]; reflexivity.
Defined.

Lemma process_records_stable_witness :
  process_records ascii_upper_char
    (valid_records
       (process_records ascii_upper_char
          [mkRecord (pystr "s1") (pystr "atXGc");
           mkRecord (pystr "s2") (pystr "XXX")])) =
  {| valid_records :=
       valid_records
         (process_records ascii_upper_char
            [mkRecord (pystr "s1") (pystr "atXGc");
             mkRecord (pystr "s2") (pystr "XXX")]);
     invalid_count := 0 |}.
Proof.
  exact (process_records_stable ascii_upper_char ascii_upper_char_ascii
           [mkRecord (pystr "s1") (pystr "atXGc");
            mkRecord (pystr "s2") (pystr "XXX")]).
Defined.

Lemma accepted_non_empty_witness :
  0 < len (seq (mkRecord (pystr "s1") (pystr "ATGC"))).
Proof.
  apply (accepted_non_empty ascii_upper_char
           [mkRecord (pystr "s1") (pystr "ATXGC");
            mkRecord (pystr "s2") (pystr "XXX")]).
  - intros r0 [<- | [<- | []]]; discriminate.
  - vm_compute. left. reflexivity.
Defined.

Lemma accepted_statistics_bounded_witness :
  exists st_in st_out,
    calculate_statistics
      [mkRecord (pystr "s1") (pystr "ATXGC");
       mkRecord (pystr "s2") (pystr "XXX")] = Ok st_in /\
    calculate_statistics
      (valid_records
         (process_records ascii_upper_char
            [mkRecord (pystr "s1") (pystr "ATXGC");
             mkRecord (pystr "s2") (pystr "XXX")])) = Ok st_out /\
    total_sequences st_out <= total_sequences st_in /\
    total_bases st_out <= total_bases st_in.
Proof.
  apply (accepted_statistics_bounded ascii_upper_char ascii_upper_char_ascii).
  intros r [<- | [<- | []]]; repeat constructor.
Defined.

Lemma calculate_statistics_concatenation_witness :
  exists st,
    calculate_statistics
      ([mkRecord (pystr "a") (pystr "AT")] ++
       [mkRecord (pystr "b") (pystr "ATGC")]) = Ok st /\
    total_sequences st = 1 + 1 /\
    total_bases st = 2 + 4 /\
    shortest st =
      (if tuple_ltb (4, pystr "b") (2, pystr "a")
       then (4, pystr "b") else (2, pystr "a")) /\
    longest st =
      (if tuple_gtb (4, pystr "b") (2, pystr "a")
       then (4, pystr "b") else (2, pystr "a")).
Proof.
  apply (calculate_statistics_concatenation
           [mkRecord (pystr "a") (pystr "AT")]
           [mkRecord (pystr "b") (pystr "ATGC")]
           {| total_sequences := 1; total_bases := 2;
              avg_length :=
                PyFloat (PrimFloat.div (float_of_int 2) (float_of_int 1));
              shortest := (2, pystr "a"); longest := (2, pystr "a") |}
           {| total_sequences := 1; total_bases := 4;
              avg_length :=
                PyFloat (PrimFloat.div (float_of_int 4) (float_of_int 1));
              shortest := (4, pystr "b"); longest := (4, pystr "b") |});
    [discriminate | discriminate | reflexivity | reflexivity].
Defined.

Lemma run_pipeline_reads_fasta_only_witness :
  exists files file,
    In (EvListdir (pystr "data") files)
       (trace demo_env
          (run_pipeline ascii_upper_char (pystr "data") (pystr "out")) tt) /\
    In file files /\
    endswith_any file fasta_suffixes = true /\
    pystr "data/b.fa" = path_join (pystr "data") file.
Proof.
  apply (run_pipeline_reads_fasta_only ascii_upper_char unit demo_env
           (pystr "data") (pystr "out") tt (pystr "data/b.fa")
           [mkRecord (pystr "t1") (pystr "")]).
  vm_compute. right. left. reflexivity.
Defined.

Lemma demo_listing_no_sep (files : list str) (file : str) :
  In (EvListdir (pystr "data") files)
     (trace demo_env
        (run_pipeline ascii_upper_char (pystr "data") (pystr "out")) tt) ->
  In file files -> ~ In sep file.
Proof.
  intros Hl Hf.
  assert (Hfiles : files = demo_listing).
  { vm_compute in Hl.
    repeat (destruct Hl as [Hl | Hl]; [try discriminate Hl |]);
      [now injection Hl | destruct Hl]. }
  subst files. vm_compute in Hf.
  destruct Hf as [<- | [<- | [<- | []]]]; vm_compute; intros H;
    repeat (destruct H as [H | H]; [discriminate H |]); exact H.
Defined.

Lemma run_pipeline_outputs_keep_names_witness :
  exists file parsed_records,
    endswith_any file fasta_suffixes = true /\
    In (path_join (pystr "data") file, parsed_records)
       (parsed (trace demo_env
                  (run_pipeline ascii_upper_char (pystr "data") (pystr "out"))
                  tt)) /\
    [mkRecord (pystr "t1") (pystr "")] =
      accepted ascii_upper_char parsed_records /\
    pystr "out/b.fa" = path_join (pystr "out") file.
Proof.
  apply (run_pipeline_outputs_keep_names ascii_upper_char unit demo_env
           (pystr "data") (pystr "out") tt).
  - exact demo_listing_no_sep.
  - vm_compute. right. left. reflexivity.
Defined.

Lemma run_pipeline_returns_valid_witness :
  (forall r,
      In r [mkRecord (pystr "s1") (pystr "atgc");
            mkRecord (pystr "s2") (pystr "ATGC");
            mkRecord (pystr "t1") (pystr "")] ->
      validate_sequence ascii_upper_char (seq r) = true) /\
  len [mkRecord (pystr "s1") (pystr "atgc");
       mkRecord (pystr "s2") (pystr "ATGC");
       mkRecord (pystr "t1") (pystr "")] <=
  py_sum (map (fun pr => len (snd pr))
            (parsed (trace demo_env
                       (run_pipeline ascii_upper_char (pystr "data")
                          (pystr "out")) tt))).
Proof.
  apply (run_pipeline_returns_valid ascii_upper_char unit demo_env
           ascii_upper_char_ascii (pystr "data") (pystr "out") tt).
  reflexivity.
Defined.

(** * The test data generator: [generate_clean_sequence] and
    [generate_dirty_sequence] of [generate_test_data.py]

    The state of the random number generator is passed along explicitly;
    the draws are variables, so that a property holds for every generator
    that keeps the promises of the library. A one-character string of a
    list such as [["G", "C"]] is its character. *)

(** The exceptions of the generator. *)
Inductive py_error : Set := Value_error | Overflow_error | Index_error.

Inductive attempt (A : Type) : Type :=
| Done (a : A)
| Fails (e : py_error).
Arguments Done {A} a.
Arguments Fails {A} e.

(** [seq[i]] and [seq[i] = x] on a list: an index from [-len] counts from
    the end, an index out of range raises [IndexError]. *)
Definition py_position {A : Type} (l : list A) (i : Z) : attempt nat :=
  if (0 <=? i) && (i <? len l) then Done (Z.to_nat i)
  else if (- len l <=? i) && (i <? 0) then Done (Z.to_nat (len l + i))
  else Fails Index_error.

Definition list_update {A : Type} (l : list A) (n : nat) (x : A) : list A :=
  firstn n l ++ x :: skipn (S n) l.

Definition py_getitem {A : Type} (l : list A) (i : Z) : attempt A :=
  match py_position l i with
  | Done n => match nth_error l n with
              | Some x => Done x
              | None => Fails Index_error
              end
  | Fails e => Fails e
  end.

Definition py_setitem {A : Type} (l : list A) (i : Z) (x : A)
    : attempt (list A) :=
  match py_position l i with
  | Done n => Done (list_update l n x)
  | Fails e => Fails e
  end.

(** [range(n)]. *)
Definition py_range (n : Z) : list Z :=
  map Z.of_nat (List.seq 0 (Z.to_nat n)).

(** [float(z)] for an [int] of either sign below [2^53] in magnitude, and
    [int(f)]: the truncation of a finite float. *)
Definition float_of_signed_int (z : Z) : float :=
  if z <? 0 then PrimFloat.opp (float_of_int (- z)) else float_of_int z.

Definition int_of_float (f : float) : attempt Z :=
  match Prim2SF f with
  | S754_zero _ => Done 0
  | S754_finite s m e =>
      let magnitude :=
        if 0 <=? e then Z.pos m * 2 ^ e else Z.pos m / 2 ^ (- e) in
      Done (if s then - magnitude else magnitude)
  | S754_infinity _ => Fails Overflow_error
  | S754_nan => Fails Value_error
  end.

(** [INVALID_CHARS]. *)
Definition INVALID_CHARS : list char :=
  pystr "NXRYKMSWBDHV1234567890-_* " ++ [10%N; 9%N].

Section Generator.

(** The state of the random number generator and the three draws the
    generator makes: [random.random()], the index below [n] that
    [random.choice] draws, and [random.sample(population, k)]. *)
Variable rng : Type.
Variable random_random : rng -> float * rng.
Variable random_below : Z -> rng -> Z * rng.
Variable random_sample : list Z -> Z -> rng -> list Z * rng.

Definition gen (A : Type) : Type := rng -> attempt (A * rng).

Definition gen_bind {A B : Type} (m : gen A) (k : A -> gen B) : gen B :=
  fun g => match m g with
           | Done (a, g') => k a g'
           | Fails e => Fails e
           end.

Definition gen_ret {A : Type} (a : A) : gen A := fun g => Done (a, g).

Definition gen_lift {A : Type} (r : attempt A) : gen A :=
  fun g => match r with
           | Done a => Done (a, g)
           | Fails e => Fails e
           end.

Notation "'let!' x ':=' m 'in' k" := (gen_bind m (fun x => k))
  (at level 10, x name, m at level 100, k at level 200).

(** [random.choice(options)]. *)
Definition choice (options : list char) : gen char :=
  fun g =>
    if negb (truthy options) then Fails Index_error
    else
      let (i, g') := random_below (len options) g in
      gen_lift (py_getitem options i) g'.

(** [random.sample(population, k)]. *)
Definition sample (population : list Z) (k : Z) : gen (list Z) :=
  fun g =>
    if (0 <=? k) && (k <=? len population)
    then Done (random_sample population k g)
    else Fails Value_error.

(** The loop of [generate_clean_sequence], [n] rounds to go. *)
Fixpoint clean_loop (n : nat) (gc_content : float) (sequence : str)
    : gen str :=
  match n with
  | O => gen_ret sequence
  | S n' =>
      fun g =>
        let (x, g1) := random_random g in
        (let! base :=
           choice (if PrimFloat.ltb x gc_content
                   then pystr "GC" else pystr "AT") in
         clean_loop n' gc_content (sequence ++ [base])) g1
  end.

Definition generate_clean_sequence (length : Z) (gc_content : float)
    : gen str :=
  clean_loop (Z.to_nat length) gc_content [].

(** The loop of [generate_dirty_sequence] over the positions. *)
Fixpoint dirty_loop (positions : list Z) (seq_list : str) : gen str :=
  match positions with
  | [] => gen_ret seq_list
  | pos :: rest =>
      let! c := choice INVALID_CHARS in
      let! seq_list' := gen_lift (py_setitem seq_list pos c) in
      dirty_loop rest seq_list'
  end.

Definition generate_dirty_sequence (length : Z) (contamination_rate : float)
    : gen str :=
  let! sequence := generate_clean_sequence length 0.5%float in
  let! num_contaminations :=
    gen_lift (int_of_float
                (PrimFloat.mul (float_of_signed_int length)
                               contamination_rate)) in
  let! positions := sample (py_range length) num_contaminations in
  dirty_loop positions sequence.

End Generator.

(** A generator for the runs below: a counter, the index is the counter
    modulo the bound, a sample is the head of the population. *)
Definition counter_random (g : nat) : float * nat := (PrimFloat.of_uint63 0, S g).
Definition counter_below (n : Z) (g : nat) : Z * nat := (Z.of_nat g mod n, S g).
Definition counter_sample (population : list Z) (k : Z) (g : nat)
    : list Z * nat := (firstn (Z.to_nat k) population, g).

(** ** Lists updated in place *)

Definition count_bases (l : str) : nat :=
  List.length (filter in_valid_bases l).

Lemma list_update_split {A : Type} (l : list A) (n : nat) (x y : A) :
  nth_error l n = Some y ->
  exists l1 l2, l = l1 ++ y :: l2 /\ List.length l1 = n /\
                list_update l n x = l1 ++ x :: l2.
Proof.
  intros H. destruct (nth_error_split l n H) as [l1 [l2 [-> Hn]]].
  exists l1, l2. repeat split; [exact Hn |].
  unfold list_update. subst n.
  rewrite firstn_app, firstn_all, Nat.sub_diag, app_nil_r.
  replace (S (List.length l1)) with (List.length l1 + 1)%nat by lia.
  rewrite skipn_app, skipn_all2 by lia.
  replace (List.length l1 + 1 - List.length l1)%nat with 1%nat by lia.
  reflexivity.
Qed.

Lemma list_update_other {A : Type} (l : list A) (n m : nat) (x y : A) :
  nth_error l n = Some y -> m <> n ->
  nth_error (list_update l n x) m = nth_error l m.
Proof.
  intros H Hm. destruct (list_update_split l n x y H) as [l1 [l2 [-> [Hn ->]]]].
  subst n. destruct (Nat.lt_ge_cases m (List.length l1)) as [Hlt | Hge].
  - now rewrite !nth_error_app1 by exact Hlt.
  - rewrite !nth_error_app2 by exact Hge.
    destruct (m - List.length l1)%nat as [| j] eqn:E; [lia | reflexivity].
Qed.

Lemma py_range_spec (n : Z) :
  NoDup (py_range n) /\ len (py_range n) = Z.max 0 n /\
  forall p, In p (py_range n) <-> 0 <= p < n.
Proof.
  unfold py_range, len. split; [| split].
  - generalize (seq_NoDup (Z.to_nat n) 0).
    induction 1 as [| x l Hx _ IH]; cbn [map]; constructor; [| exact IH].
    intros H. apply in_map_iff in H as [y [Hy Hin]].
    apply Nat2Z.inj in Hy. now subst y.
  - rewrite length_map, length_seq. lia.
  - intros p. rewrite in_map_iff. split.
    + intros [i [<- Hi]]. apply in_seq in Hi. lia.
    + intros Hp. exists (Z.to_nat p). split; [lia | apply in_seq; lia].
Qed.

Lemma invalid_chars_spec (c : char) :
  In c INVALID_CHARS ->
  in_valid_bases c = false /\ (c < 128)%N /\ ascii_upper_char c = [c].
Proof.
  unfold INVALID_CHARS. cbn. intros H.
  repeat (destruct H as [<- | H]; [repeat split |]). destruct H.
Qed.

Lemma count_bases_app (a b : str) :
  count_bases (a ++ b) = (count_bases a + count_bases b)%nat.
Proof. unfold count_bases. now rewrite filter_app, length_app. Qed.

Section GeneratorProperties.

Variable upper_char : char -> str.
Variable rng : Type.
Variable random_random : rng -> float * rng.
Variable random_below : Z -> rng -> Z * rng.
Variable random_sample : list Z -> Z -> rng -> list Z * rng.

Hypothesis upper_ascii :
  forall c : char, (c < 128)%N -> upper_char c = ascii_upper_char c.

(** What the library promises: an index below the bound; a sample of
    [k] distinct elements of the population. *)
Hypothesis random_below_range :
  forall n g, 0 < n -> 0 <= fst (random_below n g) < n.

Hypothesis random_sample_spec :
  forall population k g,
    0 <= k <= len population -> NoDup population ->
    len (fst (random_sample population k g)) = k /\
    NoDup (fst (random_sample population k g)) /\
    incl (fst (random_sample population k g)) population.

Lemma choice_spec (options : list char) (g : rng) :
  options <> [] ->
  exists c g', choice rng random_below options g = Done (c, g') /\ In c options.
Proof.
  intros Hne. unfold choice.
  destruct options as [| o options]; [congruence |]. cbn [truthy negb].
  pose proof (random_below_range (len (o :: options)) g) as Hr.
  destruct (random_below (len (o :: options)) g) as [i g']. cbn [fst] in Hr.
  assert (Hlen : 0 < len (o :: options))
    by (unfold len; cbn [List.length]; lia).
  specialize (Hr Hlen). unfold gen_lift, py_getitem, py_position.
  replace ((0 <=? i) && (i <? len (o :: options))) with true
    by (symmetry; apply andb_true_iff; split; [apply Z.leb_le | apply Z.ltb_lt];
        lia).
  destruct (nth_error (o :: options) (Z.to_nat i)) as [c |] eqn:E.
  - exists c, g'. split; [reflexivity |]. eapply nth_error_In, E.
  - apply nth_error_None in E. unfold len in Hr. lia.
Qed.

Lemma clean_loop_spec (n : nat) (gc_content : float) (sequence : str) (g : rng) :
  exists s g',
    clean_loop rng random_random random_below n gc_content sequence g =
      Done (sequence ++ s, g') /\
    List.length s = n /\ Forall is_base s.
Proof.
  revert sequence g. induction n as [| n IH]; intros sequence g.
  - exists [], g. cbn. now rewrite app_nil_r.
  - cbn [clean_loop]. destruct (random_random g) as [x g1].
    unfold gen_bind.
    assert (Hc : exists c g2,
               choice rng random_below
                 (if PrimFloat.ltb x gc_content then pystr "GC" else pystr "AT")
                 g1 = Done (c, g2) /\ is_base c).
    { destruct (PrimFloat.ltb x gc_content).
      - destruct (choice_spec (pystr "GC") g1) as [c [g2 [E Hin]]];
          [discriminate |].
        exists c, g2. split; [exact E |].
        unfold is_base, valid_bases. cbn in *. tauto.
      - destruct (choice_spec (pystr "AT") g1) as [c [g2 [E Hin]]];
          [discriminate |].
        exists c, g2. split; [exact E |].
        unfold is_base, valid_bases. cbn in *. tauto. }
    destruct Hc as [c [g2 [-> Hc]]].
    destruct (IH (sequence ++ [c]) g2) as [s [g' [-> [Hlen Hs]]]].
    exists (c :: s), g'. rewrite <- app_assoc. repeat split.
    + cbn [List.length]. now rewrite Hlen.
    + now constructor.
Qed.

(** X21: whatever the random generator draws, [generate_clean_sequence]
    returns a sequence of the requested length (empty for a negative
    length) made of A, T, G, C only; the pipeline finds it valid and
    cleaning leaves it as it is. *)
Theorem generate_clean_sequence_valid (length : Z) (gc_content : float)
    (g : rng) :
  exists s g',
    generate_clean_sequence rng random_random random_below
      length gc_content g = Done (s, g') /\
    len s = Z.max 0 length /\
    Forall is_base s /\
    validate_sequence upper_char s = true /\
    clean_sequence upper_char s = s.
Proof.
  unfold generate_clean_sequence.
  destruct (clean_loop_spec (Z.to_nat length) gc_content [] g)
    as [s [g' [E [Hlen Hs]]]].
  exists s, g'. split; [exact E |]. split; [unfold len; lia |].
  split; [exact Hs |].
  unfold validate_sequence, clean_sequence.
  rewrite (upper_bases upper_char upper_ascii s Hs).
  split; [now apply all_valid_iff | now apply filter_valid_id, all_valid_iff].
Qed.

Lemma dirty_loop_spec (positions : list Z) (seq_list : str) (g : rng) :
  NoDup positions ->
  (forall p, In p positions ->
     0 <= p < len seq_list /\
     exists x, nth_error seq_list (Z.to_nat p) = Some x /\
               in_valid_bases x = true) ->
  Forall (fun c => is_base c \/ In c INVALID_CHARS) seq_list ->
  exists dirty g',
    dirty_loop rng random_below positions seq_list g = Done (dirty, g') /\
    List.length dirty = List.length seq_list /\
    (count_bases dirty + List.length positions)%nat = count_bases seq_list /\
    Forall (fun c => is_base c \/ In c INVALID_CHARS) dirty.
Proof.
  revert seq_list g. induction positions as [| pos rest IH];
    intros seq_list g Hnd Hpos Hall.
  - exists seq_list, g. cbn. repeat split; [lia | exact Hall].
  - cbn [dirty_loop]. unfold gen_bind at 1.
    destruct (choice_spec INVALID_CHARS g) as [c [g1 [-> Hc]]];
      [discriminate |].
    destruct (Hpos pos (or_introl eq_refl)) as [Hrange [x [Hx Hvx]]].
    unfold gen_bind at 1. unfold gen_lift, py_setitem, py_position.
    replace ((0 <=? pos) && (pos <? len seq_list)) with true
      by (symmetry; apply andb_true_iff; split;
          [apply Z.leb_le | apply Z.ltb_lt]; lia).
    destruct (list_update_split seq_list (Z.to_nat pos) c x Hx)
      as [l1 [l2 [Hl [Hn Hu]]]].
    inversion Hnd as [| ? ? Hnotin Hnd']; subst.
    destruct (IH (list_update (l1 ++ x :: l2) (Z.to_nat pos) c) g1 Hnd')
      as [dirty [g' [E [Hlen [Hcount Hall']]]]].
    + intros p Hp. destruct (Hpos p (or_intror Hp)) as [Hr [y [Hy Hvy]]].
      split.
      * rewrite Hu. unfold len in *. rewrite length_app in *.
        cbn [List.length] in *. lia.
      * exists y. split; [| exact Hvy].
        rewrite (list_update_other _ _ _ c x Hx); [exact Hy |].
        intros Heq. apply Hnotin.
        assert (p = pos) by lia. now subst p.
    + rewrite Hu. apply Forall_app. apply Forall_app in Hall as [H1 H2].
      split; [exact H1 |]. inversion H2; subst. constructor; [now right | assumption].
    + exists dirty, g'. split; [exact E |].
      rewrite Hu in Hlen, Hcount. rewrite Hlen.
      rewrite !length_app. cbn [List.length]. split; [reflexivity |].
      split; [| exact Hall'].
      rewrite !count_bases_app in *.
      change (x :: l2) with ([x] ++ l2).
      change (c :: l2) with ([c] ++ l2) in Hcount.
      rewrite !count_bases_app in *.
      destruct (invalid_chars_spec c Hc) as [Hvc _].
      assert (Hc0 : count_bases [c] = 0%nat)
        by (unfold count_bases; cbn [filter]; now rewrite Hvc).
      assert (Hx1 : count_bases [x] = 1%nat)
        by (unfold count_bases; cbn [filter]; now rewrite Hvx).
      lia.
Qed.

Lemma filter_length_eq {A : Type} (p : A -> bool) (l : list A) :
  List.length (filter p l) = List.length l -> filter p l = l.
Proof.
  induction l as [| x l IH]; [reflexivity |]. cbn [filter].
  pose proof (filter_length_le p l) as Hle.
  destruct (p x); cbn [List.length]; intros H; [f_equal; apply IH |]; lia.
Qed.

Lemma upper_fixed (l : str) :
  Forall (fun c => is_base c \/ In c INVALID_CHARS) l ->
  upper upper_char l = l.
Proof.
  unfold upper. induction 1 as [| c l Hc _ IH]; [reflexivity |].
  cbn [flat_map]. rewrite IH. destruct Hc as [Hc | Hc].
  - rewrite upper_ascii by now apply is_base_ascii.
    now rewrite ascii_upper_base.
  - destruct (invalid_chars_spec c Hc) as [_ [Hlt Hup]].
    now rewrite upper_ascii, Hup.
Qed.

(** X22: when the number of contaminations [int(length * rate)] is
    between 0 and the length, [generate_dirty_sequence] returns, whatever
    the random generator draws, a sequence of the requested length from
    which cleaning removes exactly that number of characters; the
    sequence is valid for the pipeline exactly when that number is 0. *)
Theorem generate_dirty_sequence_spec (length : Z) (contamination_rate : float)
    (num_contaminations : Z) (g : rng) :
  int_of_float (PrimFloat.mul (float_of_signed_int length) contamination_rate) =
    Done num_contaminations ->
  0 <= num_contaminations <= Z.max 0 length ->
  exists dirty g',
    generate_dirty_sequence rng random_random random_below random_sample
      length contamination_rate g = Done (dirty, g') /\
    len dirty = Z.max 0 length /\
    len (clean_sequence upper_char dirty) = len dirty - num_contaminations /\
    (validate_sequence upper_char dirty = true <-> num_contaminations = 0).
Proof.
  intros Hk Hrange. unfold generate_dirty_sequence, generate_clean_sequence.
  destruct (clean_loop_spec (Z.to_nat length) 0.5%float [] g)
    as [s [g1 [E1 [Hlen Hs]]]].
  cbn [app] in E1. unfold gen_bind at 1. rewrite E1.
  unfold gen_bind at 1. unfold gen_lift at 1. rewrite Hk.
  destruct (py_range_spec length) as [Hnd [Hrl Hin]].
  unfold gen_bind at 1. unfold sample.
  replace ((0 <=? num_contaminations) &&
           (num_contaminations <=? len (py_range length))) with true
    by (symmetry; apply andb_true_iff; split; apply Z.leb_le; lia).
  destruct (random_sample_spec (py_range length) num_contaminations g1)
    as [Hpl [Hpnd Hpin]]; [lia | exact Hnd |].
  destruct (random_sample (py_range length) num_contaminations g1)
    as [positions g2]. cbn [fst] in *.
  assert (Hbases : Forall (fun c => is_base c \/ In c INVALID_CHARS) s)
    by (eapply Forall_impl; [| exact Hs]; intros c Hc; now left).
  destruct (dirty_loop_spec positions s g2 Hpnd) as
    [dirty [g' [E2 [Hdlen [Hcount Hdall]]]]]; [| exact Hbases |].
  { intros p Hp. apply Hpin, Hin in Hp.
    assert (Hlt : (Z.to_nat p < List.length s)%nat) by lia.
    split; [unfold len; lia |].
    destruct (nth_error s (Z.to_nat p)) as [x |] eqn:Ex;
      [| apply nth_error_None in Ex; lia].
    exists x. split; [reflexivity |].
    apply in_valid_bases_iff. eapply Forall_forall; [exact Hs |].
    eapply nth_error_In, Ex. }
  exists dirty, g'. split; [exact E2 |].
  assert (Hcs : count_bases s = List.length s).
  { unfold count_bases. f_equal. now apply filter_valid_id, all_valid_iff. }
  unfold clean_sequence, validate_sequence. rewrite (upper_fixed dirty Hdall).
  fold (count_bases dirty). unfold len in *.
  split; [lia |]. split; [unfold count_bases in *; lia |].
  rewrite all_valid_forallb, <- filter_id_forallb. split.
  - intros Hf. unfold count_bases in *. rewrite Hf in Hcount. lia.
  - intros ->. apply filter_length_eq. unfold count_bases in *. lia.
Qed.

(** X23: [generate_dirty_sequence] raises [ValueError] when the number of
    contaminations is negative or exceeds the length, as for a rate above
    1, and the error of [int] when the product is not a finite number. *)
Theorem generate_dirty_sequence_errors (length : Z) (contamination_rate : float)
    (g : rng) :
  (forall num_contaminations,
      int_of_float
        (PrimFloat.mul (float_of_signed_int length) contamination_rate) =
        Done num_contaminations ->
      num_contaminations < 0 \/ Z.max 0 length < num_contaminations ->
      generate_dirty_sequence rng random_random random_below random_sample
        length contamination_rate g = Fails Value_error) /\
  (forall e,
      int_of_float
        (PrimFloat.mul (float_of_signed_int length) contamination_rate) =
        Fails e ->
      generate_dirty_sequence rng random_random random_below random_sample
        length contamination_rate g = Fails e).
Proof.
  unfold generate_dirty_sequence, generate_clean_sequence.
  destruct (clean_loop_spec (Z.to_nat length) 0.5%float [] g)
    as [s [g1 [E1 _]]].
  cbn [app] in E1. unfold gen_bind at 1. rewrite E1. split.
  - intros k Hk Hrange. unfold gen_bind at 1. unfold gen_lift at 1. rewrite Hk.
    destruct (py_range_spec length) as [_ [Hrl _]].
    unfold gen_bind at 1. unfold sample.
    replace ((0 <=? k) && (k <=? len (py_range length))) with false;
      [reflexivity |].
    symmetry. apply andb_false_iff.
    destruct Hrange; [left; apply Z.leb_gt | right; apply Z.leb_gt]; lia.
  - intros e He. unfold gen_bind at 1. rewrite E1.
    unfold gen_bind at 1. unfold gen_lift at 1. rewrite He. reflexivity.
Qed.

End GeneratorProperties.

(** ** Runs of the generator on the counter generator *)

Lemma counter_below_range (n : Z) (g : nat) :
  0 < n -> 0 <= fst (counter_below n g) < n.
Proof. intros H. cbn [counter_below fst]. now apply Z.mod_pos_bound. Defined.

Lemma counter_sample_spec (population : list Z) (k : Z) (g : nat) :
  0 <= k <= len population -> NoDup population ->
  len (fst (counter_sample population k g)) = k /\
  NoDup (fst (counter_sample population k g)) /\
  incl (fst (counter_sample population k g)) population.
Proof.
  intros Hk Hnd. cbn [counter_sample fst]. unfold len in *. split; [| split].
  - rewrite length_firstn. lia.
  - rewrite <- (firstn_skipn (Z.to_nat k) population) in Hnd.
    now apply NoDup_app_remove_r in Hnd.
  - intros x Hx. rewrite <- (firstn_skipn (Z.to_nat k) population).
    apply in_or_app. now left.
Defined.

Lemma generate_clean_sequence_valid_witness :
  exists s g',
    generate_clean_sequence nat counter_random counter_below
      4 0.5%float 0%nat = Done (s, g') /\
    len s = Z.max 0 4 /\
    Forall is_base s /\
    validate_sequence ascii_upper_char s = true /\
    clean_sequence ascii_upper_char s = s.
Proof.
  exact (generate_clean_sequence_valid ascii_upper_char nat counter_random
           counter_below ascii_upper_char_ascii counter_below_range
           4 0.5%float 0%nat).
Defined.

Lemma generate_dirty_sequence_spec_witness :
  exists dirty g',
    generate_dirty_sequence nat counter_random counter_below counter_sample
      10 0.25%float 0%nat = Done (dirty, g') /\
    len dirty = Z.max 0 10 /\
    len (clean_sequence ascii_upper_char dirty) = len dirty - 2 /\
    (validate_sequence ascii_upper_char dirty = true <-> 2 = 0).
Proof.
  apply (generate_dirty_sequence_spec ascii_upper_char nat counter_random
           counter_below counter_sample ascii_upper_char_ascii
           counter_below_range counter_sample_spec
           10 0.25%float 2 0%nat).
  - reflexivity.
  - lia.
Defined.

Lemma generate_dirty_sequence_errors_witness :
  generate_dirty_sequence nat counter_random counter_below counter_sample
    10 1.5%float 0%nat = Fails Value_error.
Proof.
  apply (proj1 (generate_dirty_sequence_errors nat counter_random
                  counter_below counter_sample counter_below_range
                  10 1.5%float 0%nat) 15).
  - reflexivity.
  - right. lia.
Defined.
